(** * An interactive solar system with Phong lighting ([solarsystem.js])

    A shallow embedding of the program's geometry generator, model and
    view transforms, fragment shader, camera controller and frame loop,
    together with the properties its specification states about them.

    Number model.  JavaScript numbers (IEEE binary64), the [Float32Array]
    storage used by the matrix library and the mesh buffers, and the GLSL
    [mediump float] type are all idealised as the real numbers [R]:
    rounding is not modelled.  Loop counters and mesh indices, which the
    program keeps integral, are [nat] and [Z]; the [Uint16Array]
    conversion of the index buffer is written out as reduction modulo
    [2^16]. *)

From Stdlib Require Import Reals Lra Lia ZArith.
From stdpp Require Import base list strings gmap.

Local Open Scope R_scope.

(** ** JavaScript idioms *)

(** [for (let i = lo; i < hi; i++) body], threading the variables the
    body mutates as a state [St]. *)
Definition for_loop {St : Type} (lo hi : nat) (body : nat -> St -> St) (s : St) : St :=
  fold_left (fun acc i => body i acc) (seq lo (hi - lo)) s.

(** [arr.push(x1, ..., xk)] appends its arguments in order. *)
Definition push {A : Type} (arr : list A) (xs : list A) : list A := arr ++ xs.

(** [new Float32Array(arr)]: element-wise storage (no rounding in the
    idealised number model). *)
Definition Float32Array (arr : list R) : list R := arr.

(** [new Uint16Array(arr)]: every element is converted with ToUint16,
    i.e. reduced modulo [2^16]. *)
Definition ToUint16 (i : Z) : Z := (i mod 65536)%Z.
Definition Uint16Array (arr : list Z) : list Z := map ToUint16 arr.

(** ** Geometry generator *)

Module Geometry.

Record Mesh := mkMesh {
  positions : list R;
  normals : list R;
  indices : list Z
}.

(** First loop nest of [createSphere], lines 96-113: the state is the pair
    of arrays [(positions, normals)]; [lat <= segments] is
    [lat < segments + 1]. *)
Definition vertex_loops (radius : R) (segments : nat) : list R * list R :=
  for_loop 0 (S segments) (fun lat acc =>
    let theta := INR lat * PI / INR segments in
    let sinTheta := sin theta in
    let cosTheta := cos theta in
    for_loop 0 (S segments) (fun lon '(positions, normals) =>
      let phi := INR lon * 2 * PI / INR segments in
      let sinPhi := sin phi in
      let cosPhi := cos phi in
      let x := cosPhi * sinTheta in
      let y := cosTheta in
      let z := sinPhi * sinTheta in
      (push positions [radius * x; radius * y; radius * z],
       push normals [x; y; z])) acc) ([], []).

(** Body of the index loop, lines 117-121: one quad, two triangles. *)
Definition quad_push (segments lat lon : nat) (indices : list Z) : list Z :=
  let first := (Z.of_nat lat * (Z.of_nat segments + 1) + Z.of_nat lon)%Z in
  let second := (first + Z.of_nat segments + 1)%Z in
  let indices := push indices [first; second; (first + 1)%Z] in
  push indices [second; (second + 1)%Z; (first + 1)%Z].

(** Second loop nest of [createSphere], lines 115-123. *)
Definition index_loops (segments : nat) : list Z :=
  for_loop 0 segments (fun lat acc =>
    for_loop 0 segments (fun lon indices => quad_push segments lat lon indices) acc) [].

Definition createSphere (radius : R) (segments : nat) : Mesh :=
  let '(positions, normals) := vertex_loops radius segments in
  let indices := index_loops segments in
  {| positions := Float32Array positions;
     normals := Float32Array normals;
     indices := Uint16Array indices |}.

(** Derived views of a mesh: three consecutive numbers per vertex. *)
Definition vertex_count (m : Mesh) : nat := (length (positions m) / 3)%nat.

Definition triple_at (arr : list R) (i : nat) : option (R * R * R) :=
  match arr !! (3 * i)%nat, arr !! (3 * i + 1)%nat, arr !! (3 * i + 2)%nat with
  | Some x, Some y, Some z => Some (x, y, z)
  | _, _, _ => None
  end.

Definition vertex_position (m : Mesh) (i : nat) : option (R * R * R) :=
  triple_at (positions m) i.
Definition vertex_normal (m : Mesh) (i : nat) : option (R * R * R) :=
  triple_at (normals m) i.

(** Euclidean length of a triple. *)
Definition magnitude (v : R * R * R) : R :=
  let '(x, y, z) := v in sqrt (x * x + y * y + z * z).

(** What one iteration of each inner loop appends. *)
Definition vertex_direction (segments lat lon : nat) : R * R * R :=
  let theta := INR lat * PI / INR segments in
  let phi := INR lon * 2 * PI / INR segments in
  (cos phi * sin theta, cos theta, sin phi * sin theta).

Definition position_block (radius : R) (segments lat lon : nat) : list R :=
  let '(x, y, z) := vertex_direction segments lat lon in
  [radius * x; radius * y; radius * z].

Definition normal_block (segments lat lon : nat) : list R :=
  let '(x, y, z) := vertex_direction segments lat lon in [x; y; z].

Definition quad_block (segments lat lon : nat) : list Z :=
  quad_push segments lat lon [].

(** Largest element of an index buffer (0 for the empty buffer). *)
Definition largest_index (l : list Z) : Z := fold_right Z.max 0%Z l.

End Geometry.

(** The mesh every body is drawn with, line 128. *)
Definition sphere : Geometry.Mesh := Geometry.createSphere 1 24.

(** ** The matrix library

    [mat4] of gl-matrix, which the page loads next to the script: an
    external collaborator, not part of the script.  A [mat4] is sixteen
    numbers
    in column-major order.  The program always passes the same matrix
    as [out] and as [a]; the model returns the updated matrix. *)

Module mat4.

Record t := mk {
  e0 : R; e1 : R; e2 : R; e3 : R;
  e4 : R; e5 : R; e6 : R; e7 : R;
  e8 : R; e9 : R; e10 : R; e11 : R;
  e12 : R; e13 : R; e14 : R; e15 : R
}.

(** Modelled from the spec: [mat4.create()], the identity every
    transform starts from. *)
Definition create : t :=
  mk 1 0 0 0
     0 1 0 0
     0 0 1 0
     0 0 0 1.

(** Modelled from the spec: [mat4.rotateX(out, a, rad)], rotate by [rad]
    about the local X axis; as gl-matrix computes it, [a] times the
    elementary rotation. *)
Definition rotateX (a : t) (rad : R) : t :=
  let s := sin rad in
  let c := cos rad in
  mk (e0 a) (e1 a) (e2 a) (e3 a)
     (e4 a * c + e8 a * s) (e5 a * c + e9 a * s) (e6 a * c + e10 a * s) (e7 a * c + e11 a * s)
     (e8 a * c - e4 a * s) (e9 a * c - e5 a * s) (e10 a * c - e6 a * s) (e11 a * c - e7 a * s)
     (e12 a) (e13 a) (e14 a) (e15 a).

(** Modelled from the spec: [mat4.rotateY(out, a, rad)], rotate by [rad]
    about the local Y axis. *)
Definition rotateY (a : t) (rad : R) : t :=
  let s := sin rad in
  let c := cos rad in
  mk (e0 a * c - e8 a * s) (e1 a * c - e9 a * s) (e2 a * c - e10 a * s) (e3 a * c - e11 a * s)
     (e4 a) (e5 a) (e6 a) (e7 a)
     (e0 a * s + e8 a * c) (e1 a * s + e9 a * c) (e2 a * s + e10 a * c) (e3 a * s + e11 a * c)
     (e12 a) (e13 a) (e14 a) (e15 a).

(** Modelled from the spec: [mat4.translate(out, a, v)], translate along
    the local axes by [v]. *)
Definition translate (a : t) (v : R * R * R) : t :=
  let '(x, y, z) := v in
  mk (e0 a) (e1 a) (e2 a) (e3 a)
     (e4 a) (e5 a) (e6 a) (e7 a)
     (e8 a) (e9 a) (e10 a) (e11 a)
     (e0 a * x + e4 a * y + e8 a * z + e12 a)
     (e1 a * x + e5 a * y + e9 a * z + e13 a)
     (e2 a * x + e6 a * y + e10 a * z + e14 a)
     (e3 a * x + e7 a * y + e11 a * z + e15 a).

(** Modelled from the spec: [mat4.scale(out, a, v)], scale the local axes
    by the components of [v]. *)
Definition scale (a : t) (v : R * R * R) : t :=
  let '(x, y, z) := v in
  mk (e0 a * x) (e1 a * x) (e2 a * x) (e3 a * x)
     (e4 a * y) (e5 a * y) (e6 a * y) (e7 a * y)
     (e8 a * z) (e9 a * z) (e10 a * z) (e11 a * z)
     (e12 a) (e13 a) (e14 a) (e15 a).

(** Modelled from the spec: [mat4.perspective(out, fovy, aspect, near,
    far)], the perspective projection, for a finite [far]. *)
Definition perspective (fovy aspect near far : R) : t :=
  let f := 1 / tan (fovy / 2) in
  let nf := 1 / (near - far) in
  mk (f / aspect) 0 0 0
     0 f 0 0
     0 0 ((far + near) * nf) (-1)
     0 0 (2 * far * near * nf) 0.

(** Textbook counterparts, used to state the build order of section 4.4:
    the product of two column-major matrices and the elementary
    matrices. *)
Definition mul (a b : t) : t :=
  mk (e0 a * e0 b + e4 a * e1 b + e8 a * e2 b + e12 a * e3 b)
     (e1 a * e0 b + e5 a * e1 b + e9 a * e2 b + e13 a * e3 b)
     (e2 a * e0 b + e6 a * e1 b + e10 a * e2 b + e14 a * e3 b)
     (e3 a * e0 b + e7 a * e1 b + e11 a * e2 b + e15 a * e3 b)
     (e0 a * e4 b + e4 a * e5 b + e8 a * e6 b + e12 a * e7 b)
     (e1 a * e4 b + e5 a * e5 b + e9 a * e6 b + e13 a * e7 b)
     (e2 a * e4 b + e6 a * e5 b + e10 a * e6 b + e14 a * e7 b)
     (e3 a * e4 b + e7 a * e5 b + e11 a * e6 b + e15 a * e7 b)
     (e0 a * e8 b + e4 a * e9 b + e8 a * e10 b + e12 a * e11 b)
     (e1 a * e8 b + e5 a * e9 b + e9 a * e10 b + e13 a * e11 b)
     (e2 a * e8 b + e6 a * e9 b + e10 a * e10 b + e14 a * e11 b)
     (e3 a * e8 b + e7 a * e9 b + e11 a * e10 b + e15 a * e11 b)
     (e0 a * e12 b + e4 a * e13 b + e8 a * e14 b + e12 a * e15 b)
     (e1 a * e12 b + e5 a * e13 b + e9 a * e14 b + e13 a * e15 b)
     (e2 a * e12 b + e6 a * e13 b + e10 a * e14 b + e14 a * e15 b)
     (e3 a * e12 b + e7 a * e13 b + e11 a * e14 b + e15 a * e15 b).

Definition rotation_y (rad : R) : t :=
  mk (cos rad) 0 (- sin rad) 0
     0 1 0 0
     (sin rad) 0 (cos rad) 0
     0 0 0 1.

Definition translation (v : R * R * R) : t :=
  let '(x, y, z) := v in
  mk 1 0 0 0
     0 1 0 0
     0 0 1 0
     x y z 1.

Definition scaling (v : R * R * R) : t :=
  let '(x, y, z) := v in
  mk x 0 0 0
     0 y 0 0
     0 0 z 0
     0 0 0 1.

(** Image of the point [p] under the affine transform [a]: the first three
    components of [a (x, y, z, 1)]. *)
Definition transform_point (a : t) (p : R * R * R) : R * R * R :=
  let '(x, y, z) := p in
  (e0 a * x + e4 a * y + e8 a * z + e12 a,
   e1 a * x + e5 a * y + e9 a * z + e13 a,
   e2 a * x + e6 a * y + e10 a * z + e14 a).

End mat4.

(** ** The shading program

    The GLSL built-ins the fragment stage calls, as the GLSL ES
    specification defines them, and the fragment stage's [main]. *)

Module GLSL.

Definition vec3 : Type := R * R * R.
Definition vec4 : Type := R * R * R * R.

Definition vec3_add (a b : vec3) : vec3 :=
  let '(ax, ay, az) := a in let '(bx, by_, bz) := b in (ax + bx, ay + by_, az + bz).
Definition vec3_sub (a b : vec3) : vec3 :=
  let '(ax, ay, az) := a in let '(bx, by_, bz) := b in (ax - bx, ay - by_, az - bz).
Definition vec3_neg (a : vec3) : vec3 :=
  let '(ax, ay, az) := a in (- ax, - ay, - az).
(** [k * v] for a float [k] and a [vec3] [v]. *)
Definition vec3_scale (k : R) (a : vec3) : vec3 :=
  let '(ax, ay, az) := a in (k * ax, k * ay, k * az).
(** [vec3(k)]. *)
Definition vec3_splat (k : R) : vec3 := (k, k, k).
(** [c.rgb] and [vec4(v, a)]. *)
Definition rgb (c : vec4) : vec3 := let '(r, g, b, _) := c in (r, g, b).
Definition alpha (c : vec4) : R := let '(_, _, _, a) := c in a.
Definition vec4_of (v : vec3) (a : R) : vec4 := let '(r, g, b) := v in (r, g, b, a).

Definition dot (a b : vec3) : R :=
  let '(ax, ay, az) := a in let '(bx, by_, bz) := b in ax * bx + ay * by_ + az * bz.
Definition length (a : vec3) : R := sqrt (dot a a).
(** [normalize(v)] is [v / length(v)]. *)
Definition normalize (a : vec3) : vec3 :=
  let '(ax, ay, az) := a in (ax / length a, ay / length a, az / length a).
(** [reflect(I, N)] is [I - 2 dot(N, I) N]. *)
Definition reflect (i n : vec3) : vec3 := vec3_sub i (vec3_scale (2 * dot n i) n).
Definition max (a b : R) : R := Rmax a b.
(** [pow(x, 32.0)]: the exponent is the integer 32. *)
Definition pow32 (x : R) : R := x ^ 32.

(** [main] of the fragment shader, lines 40-55: from the varyings
    [vNormal], [vFragPos] and the uniforms [uLightPos], [uViewPos],
    [uColor] to [gl_FragColor]. *)
Definition fragment_main (vNormal vFragPos uLightPos uViewPos : vec3) (uColor : vec4) : vec4 :=
  let norm := normalize vNormal in
  let lightDir := normalize (vec3_sub uLightPos vFragPos) in
  let diff := max (dot norm lightDir) 0 in
  let viewDir := normalize (vec3_sub uViewPos vFragPos) in
  let reflectDir := reflect (vec3_neg lightDir) norm in
  let spec := pow32 (max (dot viewDir reflectDir) 0) in
  let ambient := vec3_scale 0.1 (rgb uColor) in
  let diffuse := vec3_scale diff (rgb uColor) in
  let specular := vec3_scale spec (vec3_splat 1) in
  let result := vec3_add (vec3_add ambient diffuse) specular in
  vec4_of result 1.

End GLSL.

(** ** Program state and effects *)

Module Camera.

(** The object held by the global [camera], line 152. *)
Record t := mk { x : R; y : R; z : R; pitch : R; yaw : R }.

End Camera.

(** The graphics-context API, as far as the program calls it.  Objects the
    context hands out (shaders, locations, buffers) are named after the
    constants the program stores them in. *)
Module gl.

Inductive shader : Set := VERTEX_SHADER | FRAGMENT_SHADER.
Inductive attribute : Set := aPosition | aNormal.
Inductive uniform : Set :=
  uModelMatrix | uViewMatrix | uProjectionMatrix | uLightPos | uViewPos | uColor.
Inductive buffer : Set := posBuffer | normalBuffer | indexBuffer.
Inductive target : Set := ARRAY_BUFFER | ELEMENT_ARRAY_BUFFER.
Inductive data : Type := Float32 (arr : list R) | Uint16 (arr : list Z).

Inductive call : Type :=
| createShader (type : shader)
| shaderSource (sh : shader)
| compileShader (sh : shader)
| getShaderParameter (sh : shader)
| getShaderInfoLog (sh : shader)
| createProgram
| attachShader (sh : shader)
| linkProgram
| useProgram
| getAttribLocation (a : attribute)
| getUniformLocation (u : uniform)
| createVertexArray
| bindVertexArray
| createBuffer (b : buffer)
| bindBuffer (tg : target) (b : buffer)
| bufferData (tg : target) (d : data)
| enableVertexAttribArray (a : attribute)
| vertexAttribPointer (a : attribute) (size : nat)
| enable_DEPTH_TEST
| clearColor (r g b a : R)
| clear_COLOR_DEPTH
| uniformMatrix4fv (u : uniform) (m : mat4.t)
| uniform3fv (u : uniform) (v : GLSL.vec3)
| uniform4fv (u : uniform) (v : GLSL.vec4)
| drawElements_TRIANGLES (count : nat).

(** What [canvas.getContext("webgl")] returns when it does not return
    [null]: a WebGL 1 rendering context. *)
Inductive context : Set := webgl.

(** The methods a WebGL 1 context has.  Vertex array objects came with
    WebGL 2: on this context [createVertexArray] and [bindVertexArray]
    are [undefined]. *)
Definition provides (ctx : context) (c : call) : bool :=
  match c with
  | createVertexArray | bindVertexArray => false
  | _ => true
  end.

End gl.

(** What the user or the graphics driver gets to see. *)
Inductive effect : Type :=
| Alert (message : string)
| ConsoleError (sh : gl.shader)
| Gl (c : gl.call).

Inductive event_target : Set := document | canvas.

#[global] Instance event_target_eq_dec : EqDecision event_target.
Proof. solve_decision. Defined.

(** Everything the script's globals and the page hold. *)
Record World := mkWorld {
  canvas_width : R;
  canvas_height : R;
  projectionMatrix : mat4.t;
  camera : Camera.t;
  keys : gmap string bool;
  time : R;
  listeners : list (event_target * string);
  frame_requested : bool;
  log : list effect
}.

Definition set_canvas_size (wd ht : R) (w : World) : World :=
  mkWorld wd ht (projectionMatrix w) (camera w) (keys w) (time w)
          (listeners w) (frame_requested w) (log w).
Definition set_projectionMatrix (m : mat4.t) (w : World) : World :=
  mkWorld (canvas_width w) (canvas_height w) m (camera w) (keys w) (time w)
          (listeners w) (frame_requested w) (log w).
Definition set_camera (c : Camera.t) (w : World) : World :=
  mkWorld (canvas_width w) (canvas_height w) (projectionMatrix w) c (keys w) (time w)
          (listeners w) (frame_requested w) (log w).
Definition set_keys (k : gmap string bool) (w : World) : World :=
  mkWorld (canvas_width w) (canvas_height w) (projectionMatrix w) (camera w) k (time w)
          (listeners w) (frame_requested w) (log w).
Definition set_time (t : R) (w : World) : World :=
  mkWorld (canvas_width w) (canvas_height w) (projectionMatrix w) (camera w) (keys w) t
          (listeners w) (frame_requested w) (log w).
Definition add_listener (tg : event_target) (type : string) (w : World) : World :=
  mkWorld (canvas_width w) (canvas_height w) (projectionMatrix w) (camera w) (keys w) (time w)
          (listeners w ++ [(tg, type)]) (frame_requested w) (log w).
Definition set_frame_requested (b : bool) (w : World) : World :=
  mkWorld (canvas_width w) (canvas_height w) (projectionMatrix w) (camera w) (keys w) (time w)
          (listeners w) b (log w).
Definition add_effect (e : effect) (w : World) : World :=
  mkWorld (canvas_width w) (canvas_height w) (projectionMatrix w) (camera w) (keys w) (time w)
          (listeners w) (frame_requested w) (log w ++ [e]).

(** The page before the script runs: nothing registered, nothing shown. *)
Definition page_loaded : World :=
  mkWorld 0 0 mat4.create (Camera.mk 0 0 0 0 0) ∅ 0 [] false [].

(** Script execution: a state monad over [World] in which a statement
    either completes or throws. *)
Inductive exn : Set := TypeError.

Inductive result (A : Type) : Type :=
| Returned (a : A) (w : World)
| Thrown (e : exn) (w : World).
Arguments Returned {A} a w.
Arguments Thrown {A} e w.

Definition M (A : Type) : Type := World -> result A.

#[global] Instance M_ret : MRet M := fun A a w => Returned a w.
#[global] Instance M_bind : MBind M := fun A B f c w =>
  match c w with
  | Returned a w' => f a w'
  | Thrown e w' => Thrown e w'
  end.

Definition throw {A : Type} (e : exn) : M A := fun w => Thrown e w.
Definition get : M World := fun w => Returned w w.
Definition modify (f : World -> World) : M unit := fun w => Returned tt (f w).

(** The world a statement leaves behind, whether it completed or threw. *)
Definition world_of {A : Type} (r : result A) : World :=
  match r with Returned _ w => w | Thrown _ w => w end.

(** [gl.NAME]: reading a property of [null] throws a [TypeError]. *)
Definition gl_get {A : Type} (ctx : option gl.context) (v : A) : M A :=
  match ctx with
  | None => throw TypeError
  | Some _ => mret v
  end.

(** [gl.method(...)]: a method call on [null], and a call of a method the
    context does not have, throw a [TypeError]; any other call reaches the
    driver.  Constants read in the arguments come from the same
    context. *)
Definition gl_call (ctx : option gl.context) (c : gl.call) : M unit :=
  match ctx with
  | None => throw TypeError
  | Some ctx' =>
      if gl.provides ctx' c then modify (add_effect (Gl c)) else throw TypeError
  end.

Definition alert (message : string) : M unit := modify (add_effect (Alert message)).
Definition console_error (sh : gl.shader) : M unit := modify (add_effect (ConsoleError sh)).
Definition addEventListener (tg : event_target) (type : string) : M unit :=
  modify (add_listener tg type).
Definition requestAnimationFrame : M unit := modify (set_frame_requested true).

(** What the host provides: whether the canvas yields a context, the
    window size, whether each shader compiles, and the engine's
    [String.prototype.toLowerCase], whose Unicode case mapping the model
    does not spell out. *)
Record Host := mkHost {
  getContext : option gl.context;
  innerWidth : R;
  innerHeight : R;
  COMPILE_STATUS : gl.shader -> bool;
  toLowerCase : string -> string
}.

(** ** The program *)

(** Lower-casing of the letters A to Z, which is what the engine's
    [toLowerCase] does on ASCII strings; used for sample hosts only. *)
Definition lower_ascii (c : Ascii.ascii) : Ascii.ascii :=
  let n := Ascii.N_of_ascii c in
  if ((65 <=? n) && (n <=? 90))%N then Ascii.ascii_of_N (n + 32) else c.

Fixpoint ascii_toLowerCase (s : string) : string :=
  match s with
  | EmptyString => EmptyString
  | String c s' => String (lower_ascii c) (ascii_toLowerCase s')
  end.

(** [keys] is a plain object: the map holds its own properties, and a
    name it does not own is looked up in [Object.prototype]. *)
Definition Object_prototype : list string :=
  ["constructor"; "__defineGetter__"; "__defineSetter__"; "hasOwnProperty";
   "__lookupGetter__"; "__lookupSetter__"; "isPrototypeOf"; "propertyIsEnumerable";
   "toString"; "valueOf"; "__proto__"; "toLocaleString"].

(** Truthiness of a property read [keys[k]]: an own property reads as
    stored, an inherited one is a function or an object (truthy), and a
    missing one reads [undefined]. *)
Definition held (keys : gmap string bool) (k : string) : bool :=
  match keys !! k with
  | Some b => b
  | None => bool_decide (k ∈ Object_prototype)
  end.

(** The assignment [keys[k] = b]: it creates or updates an own property,
    except that [__proto__] is an accessor whose setter ignores a
    boolean. *)
Definition set_property (k : string) (b : bool) (keys : gmap string bool)
  : gmap string bool :=
  if decide (k = "__proto__") then keys else <[k := b]> keys.

(** [compileShader(type, source)], lines 59-66. *)
Definition compileShader (ctx : option gl.context) (host : Host) (type : gl.shader)
  : M gl.shader :=
  gl_call ctx (gl.createShader type);;
  gl_call ctx (gl.shaderSource type);;
  gl_call ctx (gl.compileShader type);;
  gl_call ctx (gl.getShaderParameter type);;
  (if negb (COMPILE_STATUS host type)
   then gl_call ctx (gl.getShaderInfoLog type);; console_error type
   else mret tt);;
  mret type.

Definition defaultCamera : Camera.t := Camera.mk 0 2 15 0 0.

(** The [keydown], [keyup] and [mousemove] listeners, lines 155-163. *)
Definition on_keydown (host : Host) (key : string) : M unit :=
  modify (fun w => set_keys (set_property (toLowerCase host key) true (keys w)) w).

Definition on_keyup (host : Host) (key : string) : M unit :=
  modify (fun w => set_keys (set_property (toLowerCase host key) false (keys w)) w).

Definition on_mousemove (buttons : Z) (movementX movementY : R) : M unit :=
  if decide (buttons = 1%Z)
  then modify (fun w =>
         let c := camera w in
         set_camera (Camera.mk (Camera.x c) (Camera.y c) (Camera.z c)
                               (Camera.pitch c - movementY * 0.002)
                               (Camera.yaw c + movementX * 0.002)) w)
  else mret tt.

(** [resetCamera()], line 165. *)
Definition resetCamera : M unit := modify (set_camera defaultCamera).

(** The model matrix [drawPlanet] builds, lines 176-180. *)
Definition model_matrix (time distance size orbitSpeed rotationSpeed : R) : mat4.t :=
  let model := mat4.create in
  let model := mat4.rotateY model (time * orbitSpeed) in
  let model := mat4.translate model (distance, 0, 0) in
  let model := mat4.rotateY model (time * rotationSpeed) in
  let model := mat4.scale model (size, size, size) in
  model.

(** [drawPlanet], lines 175-188. *)
Definition drawPlanet (ctx : option gl.context)
    (distance size : R) (color : GLSL.vec4) (orbitSpeed rotationSpeed : R)
    (viewMatrix : mat4.t) : M unit :=
  w ← get;
  let model := model_matrix (time w) distance size orbitSpeed rotationSpeed in
  gl_call ctx (gl.uniformMatrix4fv gl.uModelMatrix model);;
  gl_call ctx (gl.uniformMatrix4fv gl.uViewMatrix viewMatrix);;
  gl_call ctx (gl.uniformMatrix4fv gl.uProjectionMatrix (projectionMatrix w));;
  gl_call ctx (gl.uniform4fv gl.uColor color);;
  gl_call ctx (gl.drawElements_TRIANGLES (length (Geometry.indices sphere))).

(** Camera movement, lines 196-205. *)
Definition move (dx dy dz : R) (c : Camera.t) : Camera.t :=
  Camera.mk (Camera.x c + dx) (Camera.y c + dy) (Camera.z c + dz)
            (Camera.pitch c) (Camera.yaw c).

Definition camera_movement : M unit :=
  w ← get;
  let speed := 0.2 in
  let forward := cos (Camera.yaw (camera w)) in
  let right := sin (Camera.yaw (camera w)) in
  (if held (keys w) "w"
   then modify (fun w => set_camera (move (right * speed) 0 (- (forward * speed)) (camera w)) w)
   else mret tt);;
  (if held (keys w) "s"
   then modify (fun w => set_camera (move (- (right * speed)) 0 (forward * speed) (camera w)) w)
   else mret tt);;
  (if held (keys w) "a"
   then modify (fun w => set_camera (move (- (forward * speed)) 0 (- (right * speed)) (camera w)) w)
   else mret tt);;
  (if held (keys w) "d"
   then modify (fun w => set_camera (move (forward * speed) 0 (right * speed) (camera w)) w)
   else mret tt);;
  (if held (keys w) "q"
   then modify (fun w => set_camera (move 0 speed 0 (camera w)) w)
   else mret tt);;
  (if held (keys w) "e"
   then modify (fun w => set_camera (move 0 (- speed) 0 (camera w)) w)
   else mret tt);;
  (if held (keys w) "r" then resetCamera else mret tt).

(** The view matrix of lines 207-210. *)
Definition view_matrix (c : Camera.t) : mat4.t :=
  let view := mat4.create in
  let view := mat4.rotateX view (Camera.pitch c) in
  let view := mat4.rotateY view (Camera.yaw c) in
  let view := mat4.translate view (- Camera.x c, - Camera.y c, - Camera.z c) in
  view.

(** [render], lines 190-225. *)
Definition render (ctx : option gl.context) : M unit :=
  modify (fun w => set_time (time w + 0.01) w);;
  gl_call ctx (gl.clearColor 0 0 0 1);;
  gl_call ctx gl.clear_COLOR_DEPTH;;
  camera_movement;;
  w ← get;
  let view := view_matrix (camera w) in
  let lightPos := (0, 0, 0) in
  let viewPos := (Camera.x (camera w), Camera.y (camera w), Camera.z (camera w)) in
  gl_call ctx (gl.uniform3fv gl.uLightPos lightPos);;
  gl_call ctx (gl.uniform3fv gl.uViewPos viewPos);;
  drawPlanet ctx 0 2.5 (1, 1, 0, 1) 0 0 view;;
  drawPlanet ctx 5 0.4 (0.7, 0.7, 0.7, 1) 1.2 3 view;;
  drawPlanet ctx 7 0.6 (0.9, 0.7, 0.3, 1) 1 2 view;;
  drawPlanet ctx 9 0.7 (0.2, 0.6, 1, 1) 0.8 2 view;;
  drawPlanet ctx 11 0.5 (1, 0.3, 0.3, 1) 0.7 2 view;;
  requestAnimationFrame.

(** The script's top level, lines 4-226. *)
Definition main (host : Host) : M unit :=
  let ctx := getContext host in
  (if ctx is None then alert "WebGL not supported." else mret tt);;
  modify (set_canvas_size (innerWidth host) (innerHeight host));;
  type ← gl_get ctx gl.VERTEX_SHADER;
  vs ← compileShader ctx host type;
  type ← gl_get ctx gl.FRAGMENT_SHADER;
  fs ← compileShader ctx host type;
  gl_call ctx gl.createProgram;;
  gl_call ctx (gl.attachShader vs);;
  gl_call ctx (gl.attachShader fs);;
  gl_call ctx gl.linkProgram;;
  gl_call ctx gl.useProgram;;
  gl_call ctx (gl.getAttribLocation gl.aPosition);;
  gl_call ctx (gl.getAttribLocation gl.aNormal);;
  gl_call ctx (gl.getUniformLocation gl.uModelMatrix);;
  gl_call ctx (gl.getUniformLocation gl.uViewMatrix);;
  gl_call ctx (gl.getUniformLocation gl.uProjectionMatrix);;
  gl_call ctx (gl.getUniformLocation gl.uLightPos);;
  gl_call ctx (gl.getUniformLocation gl.uViewPos);;
  gl_call ctx (gl.getUniformLocation gl.uColor);;
  gl_call ctx gl.createVertexArray;;
  gl_call ctx gl.bindVertexArray;;
  gl_call ctx (gl.createBuffer gl.posBuffer);;
  gl_call ctx (gl.bindBuffer gl.ARRAY_BUFFER gl.posBuffer);;
  gl_call ctx (gl.bufferData gl.ARRAY_BUFFER (gl.Float32 (Geometry.positions sphere)));;
  gl_call ctx (gl.enableVertexAttribArray gl.aPosition);;
  gl_call ctx (gl.vertexAttribPointer gl.aPosition 3);;
  gl_call ctx (gl.createBuffer gl.normalBuffer);;
  gl_call ctx (gl.bindBuffer gl.ARRAY_BUFFER gl.normalBuffer);;
  gl_call ctx (gl.bufferData gl.ARRAY_BUFFER (gl.Float32 (Geometry.normals sphere)));;
  gl_call ctx (gl.enableVertexAttribArray gl.aNormal);;
  gl_call ctx (gl.vertexAttribPointer gl.aNormal 3);;
  gl_call ctx (gl.createBuffer gl.indexBuffer);;
  gl_call ctx (gl.bindBuffer gl.ELEMENT_ARRAY_BUFFER gl.indexBuffer);;
  gl_call ctx (gl.bufferData gl.ELEMENT_ARRAY_BUFFER (gl.Uint16 (Geometry.indices sphere)));;
  modify (set_camera defaultCamera);;
  modify (set_keys ∅);;
  addEventListener document "keydown";;
  addEventListener document "keyup";;
  addEventListener canvas "mousemove";;
  w ← get;
  modify (set_projectionMatrix
            (mat4.perspective (PI / 4) (canvas_width w / canvas_height w) 0.1 100));;
  modify (set_time 0);;
  gl_call ctx gl.enable_DEPTH_TEST;;
  render ctx.

(** ** The host's event loop

    After the script has run, the host delivers input events to the
    listeners that were registered and runs the frame callback when one
    was requested.  An exception thrown by a callback ends that callback
    only. *)
Inductive host_event : Type :=
| KeyDown (key : string)
| KeyUp (key : string)
| MouseMove (buttons : Z) (movementX movementY : R)
| AnimationFrame.

Definition dispatch (host : Host) (ev : host_event) : M unit :=
  w ← get;
  match ev with
  | KeyDown key =>
      if decide ((document, "keydown") ∈ listeners w) then on_keydown host key else mret tt
  | KeyUp key =>
      if decide ((document, "keyup") ∈ listeners w) then on_keyup host key else mret tt
  | MouseMove buttons movementX movementY =>
      if decide ((canvas, "mousemove") ∈ listeners w)
      then on_mousemove buttons movementX movementY else mret tt
  | AnimationFrame =>
      if frame_requested w
      then modify (set_frame_requested false);; render (getContext host)
      else mret tt
  end.

(** The world after the script and then the events [evs]. *)
Definition run (host : Host) (evs : list host_event) : World :=
  fold_left (fun w ev => world_of (dispatch host ev w)) evs
            (world_of (main host page_loaded)).

(** ** Reading the graphics log

    A draw call renders with the uniform values bound when it is issued. *)
Record Uniforms := mkUniforms {
  bound_model : mat4.t;
  bound_view : mat4.t;
  bound_projection : mat4.t;
  bound_color : GLSL.vec4
}.

Record Draw := mkDraw {
  draw_uniforms : Uniforms;
  draw_count : nat
}.

Definition bind_uniform (c : gl.call) (u : Uniforms) : Uniforms :=
  match c with
  | gl.uniformMatrix4fv gl.uModelMatrix m =>
      mkUniforms m (bound_view u) (bound_projection u) (bound_color u)
  | gl.uniformMatrix4fv gl.uViewMatrix m =>
      mkUniforms (bound_model u) m (bound_projection u) (bound_color u)
  | gl.uniformMatrix4fv gl.uProjectionMatrix m =>
      mkUniforms (bound_model u) (bound_view u) m (bound_color u)
  | gl.uniform4fv gl.uColor v =>
      mkUniforms (bound_model u) (bound_view u) (bound_projection u) v
  | _ => u
  end.

Fixpoint draws_of (u : Uniforms) (l : list effect) : list Draw :=
  match l with
  | [] => []
  | Gl (gl.drawElements_TRIANGLES n) :: l' => mkDraw u n :: draws_of u l'
  | Gl c :: l' => draws_of (bind_uniform c u) l'
  | _ :: l' => draws_of u l'
  end.

Definition draw_model (d : Draw) : mat4.t := bound_model (draw_uniforms d).
Definition draw_color (d : Draw) : GLSL.vec4 := bound_color (draw_uniforms d).

(** ** The specification's view of the scene (sections 3 and 4.4) *)

Record CelestialBody := mkBody {
  orbitDistance : R;
  visualSize : R;
  color : GLSL.vec4;
  orbitAngularSpeed : R;
  selfRotationSpeed : R
}.

Definition Sun : CelestialBody := mkBody 0 2.5 (1, 1, 0, 1) 0 0.
Definition Mercury : CelestialBody := mkBody 5 0.4 (0.7, 0.7, 0.7, 1) 1.2 3.
Definition Venus : CelestialBody := mkBody 7 0.6 (0.9, 0.7, 0.3, 1) 1 2.
Definition Earth : CelestialBody := mkBody 9 0.7 (0.2, 0.6, 1, 1) 0.8 2.
Definition Mars : CelestialBody := mkBody 11 0.5 (1, 0.3, 0.3, 1) 0.7 2.

Definition bodies : list CelestialBody := [Sun; Mercury; Venus; Earth; Mars].

(** Build order of section 4.4 as a product of elementary matrices:
    identity, orbital revolution, translation along local X, axial spin,
    uniform scale. *)
Definition spec_model_transform (time : R) (b : CelestialBody) : mat4.t :=
  mat4.mul (mat4.mul (mat4.mul (mat4.mul mat4.create
    (mat4.rotation_y (time * orbitAngularSpeed b)))
    (mat4.translation (orbitDistance b, 0, 0)))
    (mat4.rotation_y (time * selfRotationSpeed b)))
    (mat4.scaling (visualSize b, visualSize b, visualSize b)).

(** Squared distance from the world origin of the image of a body's
    centre. *)
Definition centre_distance_sq (m : mat4.t) : R :=
  mat4.e12 m * mat4.e12 m + mat4.e13 m * mat4.e13 m + mat4.e14 m * mat4.e14 m.

(** ** Closed form of one frame's camera update *)

(** The keys [render] polls, in polling order, and those among them that
    are held. *)
Definition polled_keys : list string := ["w"; "s"; "a"; "d"; "q"; "e"; "r"].
Definition held_keys (keys : gmap string bool) : list string :=
  List.filter (held keys) polled_keys.

Definition camera_after (keys : gmap string bool) (c : Camera.t) : Camera.t :=
  let speed := 0.2 in
  let forward := cos (Camera.yaw c) in
  let right := sin (Camera.yaw c) in
  let c := if held keys "w" then move (right * speed) 0 (- (forward * speed)) c else c in
  let c := if held keys "s" then move (- (right * speed)) 0 (forward * speed) c else c in
  let c := if held keys "a" then move (- (forward * speed)) 0 (- (right * speed)) c else c in
  let c := if held keys "d" then move (forward * speed) 0 (right * speed) c else c in
  let c := if held keys "q" then move 0 speed 0 c else c in
  let c := if held keys "e" then move 0 (- speed) 0 c else c in
  if held keys "r" then defaultCamera else c.

Definition position (c : Camera.t) : R * R * R := (Camera.x c, Camera.y c, Camera.z c).

(** Where one frame moves the camera. *)
Definition displacement (keys : gmap string bool) (c : Camera.t) : R * R * R :=
  GLSL.vec3_sub (position (camera_after keys c)) (position c).

(** ** Closed form of one frame *)

(** The graphics calls of one [drawPlanet]. *)
Definition planet_log (time : R) (view projection : mat4.t)
    (distance size : R) (color : GLSL.vec4) (orbitSpeed rotationSpeed : R) : list effect :=
  [Gl (gl.uniformMatrix4fv gl.uModelMatrix
         (model_matrix time distance size orbitSpeed rotationSpeed));
   Gl (gl.uniformMatrix4fv gl.uViewMatrix view);
   Gl (gl.uniformMatrix4fv gl.uProjectionMatrix projection);
   Gl (gl.uniform4fv gl.uColor color);
   Gl (gl.drawElements_TRIANGLES (length (Geometry.indices sphere)))].

(** The graphics calls of one [render]. *)
Definition frame_log (time : R) (c : Camera.t) (projection : mat4.t) : list effect :=
  [Gl (gl.clearColor 0 0 0 1);
   Gl gl.clear_COLOR_DEPTH;
   Gl (gl.uniform3fv gl.uLightPos (0, 0, 0));
   Gl (gl.uniform3fv gl.uViewPos (Camera.x c, Camera.y c, Camera.z c))]
  ++ planet_log time (view_matrix c) projection 0 2.5 (1, 1, 0, 1) 0 0
  ++ planet_log time (view_matrix c) projection 5 0.4 (0.7, 0.7, 0.7, 1) 1.2 3
  ++ planet_log time (view_matrix c) projection 7 0.6 (0.9, 0.7, 0.3, 1) 1 2
  ++ planet_log time (view_matrix c) projection 9 0.7 (0.2, 0.6, 1, 1) 0.8 2
  ++ planet_log time (view_matrix c) projection 11 0.5 (1, 0.3, 0.3, 1) 0.7 2.

(** The world one [render] leaves behind. *)
Definition after_frame (w : World) : World :=
  let c := camera_after (keys w) (camera w) in
  mkWorld (canvas_width w) (canvas_height w) (projectionMatrix w) c (keys w)
          (time w + 0.01) (listeners w) true
          (log w ++ frame_log (time w + 0.01) c (projectionMatrix w)).

(** The listeners lines 155-158 register, in order. *)
Definition registered : list (event_target * string) :=
  [(document, "keydown"); (document, "keyup"); (canvas, "mousemove")].

(** The world a script without a graphics context leaves behind. *)
Definition without_context (host : Host) : World :=
  mkWorld (innerWidth host) (innerHeight host) mat4.create (Camera.mk 0 0 0 0 0) ∅ 0
          [] false [Alert "WebGL not supported."].

(** The event loop is live: the listeners of lines 155-158 are registered
    and a frame is pending. *)
Definition running (w : World) : Prop :=
  listeners w = registered /\ frame_requested w = true.

(** ** Sample inputs *)

Definition only_w_held : gmap string bool := {["w" := true]}.
Definition only_d_held : gmap string bool := <["w" := false]> {["d" := true]}.
Definition w_and_d_held : gmap string bool := <["d" := true]> {["w" := true]}.
Definition all_polled_held : gmap string bool :=
  <["w" := true]> (<["s" := true]> (<["a" := true]> (<["d" := true]>
    (<["q" := true]> (<["e" := true]> {["r" := true]}))))).

Definition at_rest : World := set_camera defaultCamera page_loaded.
Definition astray : World :=
  set_keys all_polled_held (set_camera (Camera.mk 3 (-4) 5 0.5 1) page_loaded).

Definition with_webgl : Host :=
  mkHost (Some gl.webgl) 800 600 (fun _ => true) ascii_toLowerCase.
Definition without_webgl : Host :=
  mkHost None 800 600 (fun _ => true) ascii_toLowerCase.

Definition some_input : list host_event :=
  [KeyDown "W"; AnimationFrame; MouseMove 1 30 (-12); KeyUp "w"; KeyDown "q";
   AnimationFrame; MouseMove 0 5 5; AnimationFrame].

(** ** The vertex stage *)

Module VertexStage.

(** [m * v] for a [mat4] and a [vec4] (column vectors, column-major
    storage). *)
Definition mat4_times_vec4 (m : mat4.t) (v : GLSL.vec4) : GLSL.vec4 :=
  let '(x, y, z, w) := v in
  (mat4.e0 m * x + mat4.e4 m * y + mat4.e8 m * z + mat4.e12 m * w,
   mat4.e1 m * x + mat4.e5 m * y + mat4.e9 m * z + mat4.e13 m * w,
   mat4.e2 m * x + mat4.e6 m * y + mat4.e10 m * z + mat4.e14 m * w,
   mat4.e3 m * x + mat4.e7 m * y + mat4.e11 m * z + mat4.e15 m * w).

(** [mat3(m) * v]: the upper-left 3x3 block applied to a [vec3]. *)
Definition mat3_times_vec3 (m : mat4.t) (v : GLSL.vec3) : GLSL.vec3 :=
  let '(x, y, z) := v in
  (mat4.e0 m * x + mat4.e4 m * y + mat4.e8 m * z,
   mat4.e1 m * x + mat4.e5 m * y + mat4.e9 m * z,
   mat4.e2 m * x + mat4.e6 m * y + mat4.e10 m * z).

(** What the stage hands on. *)
Record Output := mkOutput {
  gl_Position : GLSL.vec4;
  vNormal : GLSL.vec3;
  vFragPos : GLSL.vec3
}.

(** [main] of the vertex shader, lines 22-27. *)
Definition vertex_main (aPosition aNormal : GLSL.vec3)
    (uModelMatrix uViewMatrix uProjectionMatrix : mat4.t) : Output :=
  let worldPos := mat4_times_vec4 uModelMatrix (GLSL.vec4_of aPosition 1) in
  let vFragPos := GLSL.rgb worldPos in
  let vNormal := mat3_times_vec3 uModelMatrix aNormal in
  let gl_Position :=
    mat4_times_vec4 (mat4.mul uProjectionMatrix uViewMatrix) worldPos in
  mkOutput gl_Position vNormal vFragPos.

End VertexStage.

(** ** Notions used to state further properties *)

(** Elementary rotation about X, the counterpart of [mat4.rotateX]. *)
Definition rotation_x (rad : R) : mat4.t :=
  mat4.mk 1 0 0 0
          0 (cos rad) (sin rad) 0
          0 (- sin rad) (cos rad) 0
          0 0 0 1.

(** A matrix whose last row is [(0, 0, 0, 1)]. *)
Definition affine (m : mat4.t) : Prop :=
  mat4.e3 m = 0 /\ mat4.e7 m = 0 /\ mat4.e11 m = 0 /\ mat4.e15 m = 1.

(** Distance between two points. *)
Definition distance (p q : R * R * R) : R := Geometry.magnitude (GLSL.vec3_sub p q).

(** Where [drawPlanet] puts a body's centre at a given time. *)
Definition body_centre (time distance_ orbitSpeed : R) : R * R * R :=
  mat4.transform_point (model_matrix time distance_ 1 orbitSpeed 0) (0, 0, 0).

(** The pure effect of one event on a world whose listeners are
    registered and whose frame is pending. *)
Definition step (host : Host) (ev : host_event) (w : World) : World :=
  match ev with
  | KeyDown key => set_keys (set_property (toLowerCase host key) true (keys w)) w
  | KeyUp key => set_keys (set_property (toLowerCase host key) false (keys w)) w
  | MouseMove buttons movementX movementY =>
      if decide (buttons = 1%Z)
      then set_camera (Camera.mk (Camera.x (camera w)) (Camera.y (camera w))
                                 (Camera.z (camera w))
                                 (Camera.pitch (camera w) - movementY * 0.002)
                                 (Camera.yaw (camera w) + movementX * 0.002)) w
      else w
  | AnimationFrame => after_frame (set_frame_requested false w)
  end.

(** Delivering a list of events to a world. *)
Definition deliver (host : Host) (evs : list host_event) (w : World) : World :=
  fold_left (fun w ev => world_of (dispatch host ev w)) evs w.

(** Number of frame callbacks among the events. *)
Definition frames (evs : list host_event) : nat :=
  List.length (List.filter (fun ev => match ev with AnimationFrame => true | _ => false end) evs).

(** Recognisers for entries of the log. *)
Definition is_draw (e : effect) : bool :=
  match e with Gl (gl.drawElements_TRIANGLES _) => true | _ => false end.
Definition is_upload (e : effect) : bool :=
  match e with Gl (gl.bufferData _ _) => true | _ => false end.
Definition is_console_error (e : effect) : bool :=
  match e with ConsoleError _ => true | _ => false end.

(** The calls [compileShader] makes for one shader. *)
Definition compile_log (host : Host) (type : gl.shader) : list effect :=
  [Gl (gl.createShader type); Gl (gl.shaderSource type); Gl (gl.compileShader type);
   Gl (gl.getShaderParameter type)]
  ++ (if COMPILE_STATUS host type then []
      else [Gl (gl.getShaderInfoLog type); ConsoleError type]).

(** The log of the script with a context: it ends with the last call
    before line 131. *)
Definition setup_log (host : Host) : list effect :=
  compile_log host gl.VERTEX_SHADER ++ compile_log host gl.FRAGMENT_SHADER ++
  [Gl gl.createProgram; Gl (gl.attachShader gl.VERTEX_SHADER);
   Gl (gl.attachShader gl.FRAGMENT_SHADER); Gl gl.linkProgram; Gl gl.useProgram;
   Gl (gl.getAttribLocation gl.aPosition); Gl (gl.getAttribLocation gl.aNormal);
   Gl (gl.getUniformLocation gl.uModelMatrix); Gl (gl.getUniformLocation gl.uViewMatrix);
   Gl (gl.getUniformLocation gl.uProjectionMatrix); Gl (gl.getUniformLocation gl.uLightPos);
   Gl (gl.getUniformLocation gl.uViewPos); Gl (gl.getUniformLocation gl.uColor)].

(** The world the script leaves behind when it has a context. *)
Definition stopped_at_line_131 (host : Host) : World :=
  mkWorld (innerWidth host) (innerHeight host) mat4.create (Camera.mk 0 0 0 0 0) ∅ 0
          [] false (setup_log host).

(** A world in which the listeners are registered and a frame is
    pending. *)
Definition idling : World :=
  mkWorld 800 600 (mat4.perspective (PI / 4) (800 / 600) 0.1 100)
          (Camera.mk 0 2 15 0 0) ∅ 0 registered true [].

(** The same with [w] held. *)
Definition striding : World := set_keys only_w_held idling.

Definition flaky_host : Host :=
  mkHost (Some gl.webgl) 1024 768
         (fun type => match type with gl.VERTEX_SHADER => true | gl.FRAGMENT_SHADER => false end)
         ascii_toLowerCase.

(** [ev] is the release of [key], up to letter case. *)
Definition releases (host : Host) (key : string) (ev : host_event) : bool :=
  match ev with
  | KeyUp key' => bool_decide (toLowerCase host key' = toLowerCase host key)
  | _ => false
  end.

(** The shaders the host fails to compile, in compilation order. *)
Definition failing_shaders (host : Host) : list gl.shader :=
  List.filter (fun type => negb (COMPILE_STATUS host type))
              [gl.VERTEX_SHADER; gl.FRAGMENT_SHADER].

Definition six_held : gmap string bool :=
  <["w" := true]> (<["s" := true]> (<["a" := true]> (<["d" := true]>
    (<["q" := true]> {["e" := true]})))).

Definition wandering : World :=
  set_keys six_held (set_camera (Camera.mk 3 (-4) 5 0.5 1) page_loaded).

Definition strafing : World :=
  set_keys (<["a" := true]> ∅) (set_camera (Camera.mk 3 (-4) 5 0.5 1) page_loaded).

Definition diagonal : World :=
  set_keys w_and_d_held (set_camera (Camera.mk 3 (-4) 5 0.5 1) page_loaded).

Definition more_input : list host_event :=
  [AnimationFrame; KeyDown "d"; MouseMove 1 4 (-2); KeyUp "D"; AnimationFrame].

(** ** Properties of the loops *)

Section Loops.

Context {A : Type}.

Lemma fold_left_push (f : nat -> list A) (body : nat -> list A -> list A) (l : list nat) :
  (forall i acc, body i acc = acc ++ f i) ->
  forall s, fold_left (fun acc i => body i acc) l s = s ++ flat_map f l.
Proof.
  intros Hbody. induction l as [|i l IH]; intros s; simpl.
  - now rewrite app_nil_r.
  - rewrite IH, Hbody. now rewrite <- app_assoc.
Qed.

Lemma for_loop_push (f : nat -> list A) (body : nat -> list A -> list A) (lo hi : nat) (s : list A) :
  (forall i acc, body i acc = acc ++ f i) ->
  for_loop lo hi body s = s ++ flat_map f (seq lo (hi - lo)).
Proof. intros Hbody. unfold for_loop. now apply fold_left_push. Qed.

Lemma flat_map_length_const (f : nat -> list A) (k : nat) (l : list nat) :
  (forall i, length (f i) = k) -> length (flat_map f l) = (k * length l)%nat.
Proof.
  intros Hk. induction l as [|i l IH]; simpl.
  - lia.
  - rewrite length_app, IH, Hk. lia.
Qed.

Lemma flat_map_seq_lookup (f : nat -> list A) (k n i j : nat) :
  (forall a, length (f a) = k) -> (i < n)%nat -> (j < k)%nat ->
  flat_map f (seq 0 n) !! (i * k + j)%nat = f i !! j.
Proof.
  intros Hk. revert i. induction n as [|n IH]; intros i Hi Hj; [lia|].
  rewrite seq_S, flat_map_app. simpl. rewrite app_nil_r.
  assert (Hlen : length (flat_map f (seq 0 n)) = (k * n)%nat).
  { rewrite (flat_map_length_const f k) by assumption. now rewrite length_seq. }
  destruct (decide (i = n)) as [->|Hne].
  - rewrite lookup_app_r by (rewrite Hlen; lia).
    rewrite Hlen. f_equal. lia.
  - rewrite lookup_app_l by (rewrite Hlen; nia).
    apply IH; lia.
Qed.

Lemma flat_map_grid_lookup (f : nat -> nat -> list A) (k m i j c : nat) :
  (forall a b, length (f a b) = k) -> (i < m)%nat -> (j < m)%nat -> (c < k)%nat ->
  flat_map (fun a => flat_map (f a) (seq 0 m)) (seq 0 m) !! (k * (i * m + j) + c)%nat
  = f i j !! c.
Proof.
  intros Hk Hi Hj Hc.
  replace (k * (i * m + j) + c)%nat with (i * (k * m) + (j * k + c))%nat by lia.
  rewrite (flat_map_seq_lookup _ (k * m)); [| |assumption|nia].
  - now apply flat_map_seq_lookup.
  - intros a. rewrite (flat_map_length_const _ k) by apply Hk.
    now rewrite length_seq.
Qed.

End Loops.

Section PairLoops.

Context {A B : Type}.

Lemma fold_left_push2 (f : nat -> list A) (g : nat -> list B)
    (body : nat -> list A * list B -> list A * list B) (l : list nat) :
  (forall i p, body i p = (p.1 ++ f i, p.2 ++ g i)) ->
  forall s, fold_left (fun acc i => body i acc) l s
            = (s.1 ++ flat_map f l, s.2 ++ flat_map g l).
Proof.
  intros Hbody. induction l as [|i l IH]; intros [a b]; simpl.
  - now rewrite !app_nil_r.
  - rewrite IH, Hbody. simpl. now rewrite <- !app_assoc.
Qed.

Lemma for_loop_push2 (f : nat -> list A) (g : nat -> list B)
    (body : nat -> list A * list B -> list A * list B) (lo hi : nat) s :
  (forall i p, body i p = (p.1 ++ f i, p.2 ++ g i)) ->
  for_loop lo hi body s
  = (s.1 ++ flat_map f (seq lo (hi - lo)), s.2 ++ flat_map g (seq lo (hi - lo))).
Proof. intros Hbody. unfold for_loop. now apply fold_left_push2. Qed.

End PairLoops.

(** ** The sphere mesh *)

Section SphereMesh.

Import Geometry.

Lemma vertex_loops_closed (r : R) (n : nat) :
  vertex_loops r n
  = (flat_map (fun lat => flat_map (position_block r n lat) (seq 0 (S n))) (seq 0 (S n)),
     flat_map (fun lat => flat_map (normal_block n lat) (seq 0 (S n))) (seq 0 (S n))).
Proof.
  unfold vertex_loops.
  rewrite (for_loop_push2
             (fun lat => flat_map (position_block r n lat) (seq 0 (S n)))
             (fun lat => flat_map (normal_block n lat) (seq 0 (S n)))).
  - now rewrite Nat.sub_0_r.
  - intros lat p.
    rewrite (for_loop_push2 (position_block r n lat) (normal_block n lat)).
    + now rewrite Nat.sub_0_r.
    + intros lon [ps ns]. reflexivity.
Qed.

Lemma quad_push_block (n lat lon : nat) (acc : list Z) :
  quad_push n lat lon acc = acc ++ quad_block n lat lon.
Proof. unfold quad_block, quad_push, push. simpl. now rewrite <- app_assoc. Qed.

Lemma index_loops_closed (n : nat) :
  index_loops n = flat_map (fun lat => flat_map (quad_block n lat) (seq 0 n)) (seq 0 n).
Proof.
  unfold index_loops.
  rewrite (for_loop_push (fun lat => flat_map (quad_block n lat) (seq 0 n))).
  - now rewrite Nat.sub_0_r.
  - intros lat acc. rewrite (for_loop_push (quad_block n lat)).
    + now rewrite Nat.sub_0_r.
    + intros lon ixs. apply quad_push_block.
Qed.

Lemma positions_createSphere (r : R) (n : nat) :
  positions (createSphere r n)
  = flat_map (fun lat => flat_map (position_block r n lat) (seq 0 (S n))) (seq 0 (S n)).
Proof. unfold createSphere. now rewrite vertex_loops_closed. Qed.

Lemma normals_createSphere (r : R) (n : nat) :
  normals (createSphere r n)
  = flat_map (fun lat => flat_map (normal_block n lat) (seq 0 (S n))) (seq 0 (S n)).
Proof. unfold createSphere. now rewrite vertex_loops_closed. Qed.

Lemma indices_createSphere (r : R) (n : nat) :
  indices (createSphere r n) = Uint16Array (index_loops n).
Proof. unfold createSphere. now destruct (vertex_loops r n). Qed.

Lemma position_block_length r n lat lon : length (position_block r n lat lon) = 3%nat.
Proof. unfold position_block. now destruct (vertex_direction n lat lon) as [[x y] z]. Qed.

Lemma normal_block_length n lat lon : length (normal_block n lat lon) = 3%nat.
Proof. unfold normal_block. now destruct (vertex_direction n lat lon) as [[x y] z]. Qed.

Lemma quad_block_length n lat lon : length (quad_block n lat lon) = 6%nat.
Proof. reflexivity. Qed.

Lemma positions_length (r : R) (n : nat) :
  length (positions (createSphere r n)) = (3 * (n + 1) ^ 2)%nat.
Proof.
  rewrite positions_createSphere.
  rewrite (flat_map_length_const _ (3 * S n)), length_seq; [simpl; nia|].
  intros lat. rewrite (flat_map_length_const _ 3), length_seq; [lia|].
  intros lon. apply position_block_length.
Qed.

Lemma normals_length (r : R) (n : nat) :
  length (normals (createSphere r n)) = (3 * (n + 1) ^ 2)%nat.
Proof.
  rewrite normals_createSphere.
  rewrite (flat_map_length_const _ (3 * S n)), length_seq; [simpl; nia|].
  intros lat. rewrite (flat_map_length_const _ 3), length_seq; [lia|].
  intros lon. apply normal_block_length.
Qed.

Lemma index_loops_length (n : nat) : length (index_loops n) = (6 * n ^ 2)%nat.
Proof.
  rewrite index_loops_closed.
  rewrite (flat_map_length_const _ (6 * n)), length_seq; [simpl; nia|].
  intros lat. rewrite (flat_map_length_const _ 6), length_seq; [lia|].
  intros lon. apply quad_block_length.
Qed.

(** Every generated index lies in [0, (n+1)^2 - 1]. *)
Lemma index_loops_range (n : nat) :
  Forall (fun i => (0 <= i <= Z.of_nat ((n + 1) ^ 2) - 1)%Z) (index_loops n).
Proof.
  rewrite index_loops_closed. apply List.Forall_forall. intros i Hi.
  apply in_flat_map in Hi as (lat & Hlat & Hi).
  apply in_flat_map in Hi as (lon & Hlon & Hi).
  apply in_seq in Hlat, Hlon.
  unfold quad_block, quad_push, push in Hi. simpl in Hi.
  assert (Hsq : Z.of_nat ((n + 1) ^ 2) = ((Z.of_nat n + 1) * (Z.of_nat n + 1))%Z).
  { rewrite Nat.pow_2_r. lia. }
  rewrite Hsq.
  assert (Hrow : (Z.of_nat lat * (Z.of_nat n + 1) <= (Z.of_nat n - 1) * (Z.of_nat n + 1))%Z)
    by (apply Z.mul_le_mono_nonneg_r; lia).
  assert (Hrow0 : (0 <= Z.of_nat lat * (Z.of_nat n + 1))%Z) by nia.
  repeat (destruct Hi as [<-|Hi]; [lia|]). destruct Hi.
Qed.

End SphereMesh.

Section SphereCounts.

Import Geometry.

Lemma ToUint16_small (i : Z) : (0 <= i < 65536)%Z -> ToUint16 i = i.
Proof. intros Hi. unfold ToUint16. now apply Z.mod_small. Qed.

Lemma ToUint16_le (i : Z) : (0 <= i)%Z -> (0 <= ToUint16 i <= i)%Z.
Proof.
  intros Hi. unfold ToUint16. split.
  - apply Z.mod_pos_bound. lia.
  - apply Z.mod_le; lia.
Qed.

Lemma largest_index_upper (l : list Z) (m : Z) :
  (0 <= m)%Z -> Forall (fun i => (i <= m)%Z) l -> (largest_index l <= m)%Z.
Proof.
  intros Hm Hall. induction Hall as [|i l Hi _ IH]; simpl; [assumption|].
  apply Z.max_lub; assumption.
Qed.

Lemma largest_index_lower (l : list Z) (m : Z) :
  In m l -> (m <= largest_index l)%Z.
Proof.
  induction l as [|i l IH]; simpl; [tauto|].
  intros [->|Hin]; [apply Z.le_max_l|].
  etransitivity; [now apply IH|apply Z.le_max_r].
Qed.

Lemma last_index_generated (n : nat) :
  (1 <= n)%nat -> In (Z.of_nat ((n + 1) ^ 2) - 1)%Z (index_loops n).
Proof.
  intros Hn. rewrite index_loops_closed.
  assert (Hsq : Z.of_nat ((n + 1) ^ 2) = ((Z.of_nat n + 1) * (Z.of_nat n + 1))%Z).
  { rewrite Nat.pow_2_r. lia. }
  rewrite Hsq.
  apply in_flat_map. exists (n - 1)%nat. split; [apply in_seq; lia|].
  apply in_flat_map. exists (n - 1)%nat. split; [apply in_seq; lia|].
  unfold quad_block, quad_push, push. simpl.
  do 4 right. left. nia.
Qed.

(** C2. For every radius [r > 0] and every integer [n >= 1],
    [createSphere(r, n)] has exactly [(n+1)^2] vertices (three position
    numbers and three normal numbers each), exactly [6 n^2] index entries,
    i.e. [2 n^2] triangles of three indices, and every emitted index is
    strictly below [(n+1)^2]. *)
Theorem createSphere_counts (r : R) (n : nat) :
  0 < r -> (1 <= n)%nat ->
  let m := createSphere r n in
  vertex_count m = ((n + 1) ^ 2)%nat /\
  length (positions m) = (3 * (n + 1) ^ 2)%nat /\
  length (normals m) = (3 * (n + 1) ^ 2)%nat /\
  length (indices m) = (6 * n ^ 2)%nat /\
  length (indices m) = (3 * (2 * n ^ 2))%nat /\
  Forall (fun i => (0 <= i < Z.of_nat ((n + 1) ^ 2))%Z) (indices m).
Proof.
  intros _ _ m. subst m.
  assert (Hix : length (indices (createSphere r n)) = (6 * n ^ 2)%nat).
  { rewrite indices_createSphere. unfold Uint16Array.
    rewrite length_map. apply index_loops_length. }
  repeat split.
  - unfold vertex_count. rewrite positions_length.
    rewrite Nat.mul_comm. apply Nat.div_mul. lia.
  - apply positions_length.
  - apply normals_length.
  - exact Hix.
  - rewrite Hix. lia.
  - rewrite indices_createSphere. unfold Uint16Array.
    apply List.Forall_map.
    eapply List.Forall_impl; [|apply index_loops_range].
    intros i Hi. cbv beta in Hi |- *.
    pose proof (ToUint16_le i (proj1 Hi)). lia.
Qed.

Lemma createSphere_counts_witness :
  0 < 1 /\ (1 <= 24)%nat /\
  vertex_count sphere = 625%nat /\ length (indices sphere) = 3456%nat.
Proof.
  split; [lra|]. split; [lia|].
  destruct (createSphere_counts 1 24) as (Hv & _ & _ & Hi & _); [lra|lia|].
  split; [exact Hv|exact Hi].
Defined.

(** C9. Whenever [(n+1)^2 <= 65536], the [Uint16Array] index buffer of
    [createSphere] holds exactly the generated indices: the conversion
    reduces nothing modulo [2^16].  The largest index is [(n+1)^2 - 1]; for
    the value [n = 24] the program uses this is 624. *)
Theorem uint16_indices_exact (r : R) (n : nat) :
  (Z.of_nat ((n + 1) ^ 2) <= 65536)%Z ->
  indices (createSphere r n) = index_loops n /\
  ((1 <= n)%nat ->
   largest_index (indices (createSphere r n)) = (Z.of_nat ((n + 1) ^ 2) - 1)%Z).
Proof.
  intros Hfit.
  assert (Heq : indices (createSphere r n) = index_loops n).
  { rewrite indices_createSphere. unfold Uint16Array.
    rewrite <- (map_id (index_loops n)) at 2.
    apply map_ext_in. intros i Hi.
    pose proof (index_loops_range n) as Hall.
    rewrite List.Forall_forall in Hall. specialize (Hall i Hi).
    apply ToUint16_small. lia. }
  split; [exact Heq|].
  intros Hn. rewrite Heq. apply Z.le_antisymm.
  - apply largest_index_upper.
    + rewrite Nat.pow_2_r. nia.
    + eapply List.Forall_impl; [|apply index_loops_range].
      intros i Hi. cbv beta in Hi. lia.
  - apply largest_index_lower. now apply last_index_generated.
Qed.

Lemma uint16_indices_exact_witness :
  (Z.of_nat ((24 + 1) ^ 2) <= 65536)%Z /\
  indices sphere = index_loops 24 /\
  largest_index (indices sphere) = 624%Z.
Proof.
  assert (Hfit : (Z.of_nat ((24 + 1) ^ 2) <= 65536)%Z) by (vm_compute; discriminate).
  split; [exact Hfit|].
  destruct (uint16_indices_exact 1 24 Hfit) as [Heq Hmax].
  split; [exact Heq|]. apply Hmax. lia.
Defined.

End SphereCounts.

Section SphereVertices.

Import Geometry.

Lemma triple_at_grid (f : nat -> nat -> list R) (m i j : nat) (x y z : R) :
  (forall a b, length (f a b) = 3%nat) -> (i < m)%nat -> (j < m)%nat ->
  f i j = [x; y; z] ->
  triple_at (flat_map (fun a => flat_map (f a) (seq 0 m)) (seq 0 m)) (i * m + j)
  = Some (x, y, z).
Proof.
  intros Hlen Hi Hj Hf. unfold triple_at.
  replace (3 * (i * m + j))%nat with (3 * (i * m + j) + 0)%nat at 1 by lia.
  rewrite !(flat_map_grid_lookup f 3) by (assumption || lia).
  now rewrite Hf.
Qed.

Lemma unit_direction (a b : R) :
  cos b * sin a * (cos b * sin a) + cos a * cos a + sin b * sin a * (sin b * sin a) = 1.
Proof.
  pose proof (sin2_cos2 a) as Ha. pose proof (sin2_cos2 b) as Hb.
  unfold Rsqr in Ha, Hb.
  replace (cos b * sin a * (cos b * sin a) + cos a * cos a + sin b * sin a * (sin b * sin a))
    with (sin a * sin a * (sin b * sin b + cos b * cos b) + cos a * cos a) by ring.
  rewrite Hb. lra.
Qed.

Lemma vertex_at_lat_lon (r : R) (n lat lon : nat) :
  0 < r -> (lat <= n)%nat -> (lon <= n)%nat ->
  let theta := INR lat * PI / INR n in
  let phi := INR lon * 2 * PI / INR n in
  let m := createSphere r n in
  let i := (lat * (n + 1) + lon)%nat in
  exists px py pz : R,
    vertex_position m i = Some (px, py, pz) /\
    px = r * (sin theta * cos phi) /\
    py = r * cos theta /\
    pz = r * (sin theta * sin phi) /\
    magnitude (px, py, pz) = r /\
    vertex_normal m i = Some (px / r, py / r, pz / r).
Proof.
  intros Hr Hlat Hlon theta phi m i. subst m i.
  exists (r * (cos phi * sin theta)), (r * cos theta), (r * (sin phi * sin theta)).
  replace (n + 1)%nat with (S n) by lia.
  split; [|split; [|split; [|split; [|split]]]].
  - unfold vertex_position. rewrite positions_createSphere.
    apply triple_at_grid; [apply position_block_length|lia|lia|reflexivity].
  - ring.
  - reflexivity.
  - ring.
  - unfold magnitude.
    replace (r * (cos phi * sin theta) * (r * (cos phi * sin theta))
             + r * cos theta * (r * cos theta)
             + r * (sin phi * sin theta) * (r * (sin phi * sin theta)))
      with (r * r * (cos phi * sin theta * (cos phi * sin theta) + cos theta * cos theta
                     + sin phi * sin theta * (sin phi * sin theta))) by ring.
    rewrite unit_direction, Rmult_1_r. apply sqrt_square. lra.
  - unfold vertex_normal. rewrite normals_createSphere.
    apply triple_at_grid; [apply normal_block_length|lia|lia|].
    unfold normal_block, vertex_direction. fold theta phi.
    repeat f_equal; field; lra.
Qed.

(** C3. In exact arithmetic, for [r > 0] and integer [n >= 1], the vertex
    of [createSphere(r, n)] at latitude index [lat] and longitude index
    [lon] (stored as vertex number [lat (n+1) + lon]) has position
    [r (sin theta cos phi, cos theta, sin theta sin phi)] with
    [theta = lat pi / n] and [phi = lon 2 pi / n]; so every one of the
    [(n+1)^2] vertices has a position of magnitude [r], and the normal
    stored for it is the position divided by [r]. *)
Theorem createSphere_vertices (r : R) (n : nat) :
  0 < r -> (1 <= n)%nat ->
  let m := createSphere r n in
  (forall lat lon : nat, (lat <= n)%nat -> (lon <= n)%nat ->
     let theta := INR lat * PI / INR n in
     let phi := INR lon * 2 * PI / INR n in
     vertex_position m (lat * (n + 1) + lon)
     = Some (r * (sin theta * cos phi), r * cos theta, r * (sin theta * sin phi))) /\
  (forall i : nat, (i < (n + 1) ^ 2)%nat ->
     exists px py pz : R,
       vertex_position m i = Some (px, py, pz) /\
       magnitude (px, py, pz) = r /\
       vertex_normal m i = Some (px / r, py / r, pz / r)).
Proof.
  intros Hr Hn m. subst m. split.
  - intros lat lon Hlat Hlon theta phi.
    destruct (vertex_at_lat_lon r n lat lon Hr Hlat Hlon)
      as (px & py & pz & -> & -> & -> & -> & _).
    reflexivity.
  - intros i Hi.
    assert (Hlat : (i / (n + 1) <= n)%nat).
    { apply Nat.lt_succ_r. replace (S n) with (n + 1)%nat by lia.
      apply Nat.Div0.div_lt_upper_bound. rewrite Nat.pow_2_r in Hi. exact Hi. }
    assert (Hlon : (i mod (n + 1) <= n)%nat).
    { pose proof (Nat.mod_upper_bound i (n + 1)). lia. }
    destruct (vertex_at_lat_lon r n _ _ Hr Hlat Hlon)
      as (px & py & pz & Hp & _ & _ & _ & Hm & Hnm).
    replace (i / (n + 1) * (n + 1) + i mod (n + 1))%nat with i in Hp, Hnm
      by (rewrite (Nat.div_mod_eq i (n + 1)) at 1; lia).
    exists px, py, pz. repeat split; assumption.
Qed.

Lemma createSphere_vertices_witness :
  0 < 1 /\ (1 <= 24)%nat /\
  vertex_position sphere (6 * 25 + 12)
  = Some (1 * (sin (INR 6 * PI / INR 24) * cos (INR 12 * 2 * PI / INR 24)),
          1 * cos (INR 6 * PI / INR 24),
          1 * (sin (INR 6 * PI / INR 24) * sin (INR 12 * 2 * PI / INR 24))) /\
  exists px py pz : R,
    vertex_position sphere 624 = Some (px, py, pz) /\
    magnitude (px, py, pz) = 1 /\
    vertex_normal sphere 624 = Some (px / 1, py / 1, pz / 1).
Proof.
  assert (Hr : 0 < 1) by lra.
  assert (Hn : (1 <= 24)%nat) by lia.
  split; [exact Hr|]. split; [exact Hn|].
  destruct (createSphere_vertices 1 24 Hr Hn) as [Hgrid Hall].
  split.
  - apply (Hgrid 6%nat 12%nat); lia.
  - apply (Hall 624%nat). simpl. lia.
Defined.

End SphereVertices.

(** ** Matrices *)

Section Matrices.

Lemma triple_eq (a b c a' b' c' : R) :
  a = a' -> b = b' -> c = c' -> (a, b, c) = (a', b', c').
Proof. now intros -> -> ->. Qed.

(** The library operations are right-multiplications by the elementary
    matrices. *)
Lemma rotateY_mul (a : mat4.t) (rad : R) :
  mat4.rotateY a rad = mat4.mul a (mat4.rotation_y rad).
Proof. destruct a. unfold mat4.rotateY, mat4.mul, mat4.rotation_y. simpl. f_equal; ring. Qed.

Lemma translate_mul (a : mat4.t) (v : R * R * R) :
  mat4.translate a v = mat4.mul a (mat4.translation v).
Proof.
  destruct a, v as [[x y] z]. unfold mat4.translate, mat4.mul, mat4.translation. simpl.
  f_equal; ring.
Qed.

Lemma scale_mul (a : mat4.t) (v : R * R * R) :
  mat4.scale a v = mat4.mul a (mat4.scaling v).
Proof.
  destruct a, v as [[x y] z]. unfold mat4.scale, mat4.mul, mat4.scaling. simpl.
  f_equal; ring.
Qed.

(** [drawPlanet] builds its matrix in the order of section 4.4. *)
Lemma model_matrix_build_order (t : R) (b : CelestialBody) :
  model_matrix t (orbitDistance b) (visualSize b) (orbitAngularSpeed b) (selfRotationSpeed b)
  = spec_model_transform t b.
Proof.
  unfold model_matrix, spec_model_transform.
  now rewrite scale_mul, rotateY_mul, translate_mul, rotateY_mul.
Qed.

(** Translation column of the model matrix: spin and scale leave it
    alone. *)
Lemma model_matrix_centre (t D size S spin : R) :
  mat4.transform_point (model_matrix t D size S spin) (0, 0, 0)
  = (D * cos (S * t), 0, - (D * sin (S * t))).
Proof.
  unfold model_matrix, mat4.transform_point. simpl.
  replace (t * S) with (S * t) by ring.
  apply triple_eq; ring.
Qed.

Lemma model_matrix_centre_distance_sq (t D size S spin : R) :
  centre_distance_sq (model_matrix t D size S spin) = D * D.
Proof.
  unfold centre_distance_sq, model_matrix. simpl.
  pose proof (sin2_cos2 (t * S)) as H. unfold Rsqr in H.
  replace (D * D) with (D * D * (sin (t * S) * sin (t * S) + cos (t * S) * cos (t * S)))
    by (rewrite H; ring).
  ring.
Qed.

End Matrices.

Section Orbit.

Import Geometry.

(** C1. In exact arithmetic, for a body drawn with [orbitDistance = D]
    (a distance, so [D >= 0]) and [orbitAngularSpeed = S], at every time
    [t >= 0] the model transform
    [drawPlanet] builds sends the body's centre (the local origin) to the
    point the orbit steps alone (revolution, then translation along local
    X) send it to: self-rotation and scale do not move it.  That point is
    at distance exactly [D] from the world origin, in the XZ plane, at
    azimuth [S t] from the +X reference axis (it is [(D, 0, 0)] rotated
    about Y by [S t], i.e. [(D cos (S t), 0, - D sin (S t))]). *)
Theorem orbit_correctness (D size S spin t : R) :
  0 <= D -> 0 <= t ->
  let orbit_steps := mat4.translate (mat4.rotateY mat4.create (t * S)) (D, 0, 0) in
  let centre := mat4.transform_point (model_matrix t D size S spin) (0, 0, 0) in
  centre = mat4.transform_point orbit_steps (0, 0, 0) /\
  magnitude centre = D /\
  centre = (D * cos (S * t), 0, - (D * sin (S * t))) /\
  centre = mat4.transform_point (mat4.rotation_y (S * t)) (D, 0, 0).
Proof.
  intros HD _ orbit_steps centre. subst orbit_steps centre.
  rewrite model_matrix_centre.
  split; [|split; [|split]].
  - unfold mat4.transform_point. simpl.
    replace (t * S) with (S * t) by ring. apply triple_eq; ring.
  - unfold magnitude.
    pose proof (sin2_cos2 (S * t)) as H. unfold Rsqr in H.
    replace (D * cos (S * t) * (D * cos (S * t)) + 0 * 0
             + - (D * sin (S * t)) * - (D * sin (S * t)))
      with (D * D * (sin (S * t) * sin (S * t) + cos (S * t) * cos (S * t))) by ring.
    rewrite H, Rmult_1_r. now apply sqrt_square.
  - reflexivity.
  - unfold mat4.transform_point. simpl. apply triple_eq; ring.
Qed.

Lemma orbit_correctness_witness :
  0 <= 9 /\ 0 <= 2 /\
  magnitude (mat4.transform_point (model_matrix 2 9 0.7 0.8 2) (0, 0, 0)) = 9 /\
  mat4.transform_point (model_matrix 2 9 0.7 0.8 2) (0, 0, 0)
  = (9 * cos (0.8 * 2), 0, - (9 * sin (0.8 * 2))).
Proof.
  split; [lra|]. split; [lra|].
  destruct (orbit_correctness 9 0.7 0.8 2 2) as (_ & Hm & Hc & _); [lra|lra|].
  split; [exact Hm|exact Hc].
Defined.

End Orbit.

(** ** The fragment stage *)

Section Phong.

Import GLSL.

Lemma reflect_neg (l n : vec3) :
  reflect (vec3_neg l) n = vec3_sub (vec3_scale (2 * dot n l) n) l.
Proof.
  destruct l as [[lx ly] lz], n as [[nx ny] nz].
  unfold reflect, vec3_neg, vec3_sub, vec3_scale, dot. apply triple_eq; ring.
Qed.

(** C7. For every input colour, normal, light position, eye position and
    fragment position the fragment stage outputs
    [rgb = 0.1 color.rgb + max(dot(N,L),0) color.rgb + max(dot(V,R),0)^32 (1,1,1)]
    with [N = normalize(normal)], [L = normalize(lightPos - fragPos)],
    [V = normalize(eyePos - fragPos)] and [R = reflect(-L, N)]
    (which is [2 (N.L) N - L]); the output alpha is [1] whatever the input
    alpha, and the input alpha does not influence the output at all. *)
Theorem fragment_stage_phong (cr cg cb ca : R) (normal lightPos eyePos fragPos : vec3) :
  let N := normalize normal in
  let L := normalize (vec3_sub lightPos fragPos) in
  let V := normalize (vec3_sub eyePos fragPos) in
  let Rd := reflect (vec3_neg L) N in
  let diff := Rmax (dot N L) 0 in
  let spec := Rmax (dot V Rd) 0 ^ 32 in
  let out := fragment_main normal fragPos lightPos eyePos (cr, cg, cb, ca) in
  out = (0.1 * cr + diff * cr + spec * 1,
         0.1 * cg + diff * cg + spec * 1,
         0.1 * cb + diff * cb + spec * 1,
         1) /\
  rgb out = vec3_add (vec3_add (vec3_scale 0.1 (cr, cg, cb)) (vec3_scale diff (cr, cg, cb)))
                     (vec3_scale spec (1, 1, 1)) /\
  alpha out = 1 /\
  Rd = vec3_sub (vec3_scale (2 * dot N L) N) L /\
  forall ca' : R, fragment_main normal fragPos lightPos eyePos (cr, cg, cb, ca') = out.
Proof.
  intros N L V Rd diff spec out. subst out.
  repeat split.
  apply reflect_neg.
Qed.

End Phong.

(** ** One frame *)

Section Frame.

Lemma camera_movement_closed (w : World) :
  camera_movement w = Returned tt (set_camera (camera_after (keys w) (camera w)) w).
Proof.
  destruct w as [wd ht pm c ks t ls fr lg].
  unfold camera_movement, camera_after, resetCamera, mbind, M_bind, get, modify, mret, M_ret. simpl.
  destruct (held ks "w"), (held ks "s"), (held ks "a"), (held ks "d"),
    (held ks "q"), (held ks "e"), (held ks "r"); reflexivity.
Qed.

Lemma render_closed (w : World) :
  render (Some gl.webgl) w = Returned tt (after_frame w).
Proof.
  destruct w as [wd ht pm c ks t ls fr lg].
  unfold render.
  cbv [mbind M_bind modify gl_call gl.provides add_effect set_time time canvas_width
       canvas_height projectionMatrix camera keys listeners frame_requested log].
  rewrite camera_movement_closed.
  cbv [drawPlanet requestAnimationFrame get set_camera set_frame_requested mbind M_bind
       modify gl_call gl.provides add_effect set_time time canvas_width canvas_height
       projectionMatrix camera keys listeners frame_requested log after_frame].
  rewrite <- !app_assoc. reflexivity.
Qed.

Lemma camera_after_reset (ks : gmap string bool) (c : Camera.t) :
  held ks "r" = true -> camera_after ks c = defaultCamera.
Proof. intros Hr. unfold camera_after. now rewrite Hr. Qed.

End Frame.

Section Scene.

Lemma sun_model_matrix (t : R) :
  model_matrix t 0 2.5 0 0 = mat4.scale mat4.create (2.5, 2.5, 2.5).
Proof.
  unfold model_matrix, mat4.scale, mat4.rotateY, mat4.translate, mat4.create. simpl.
  rewrite Rmult_0_r, sin_0, cos_0. f_equal; ring.
Qed.

Lemma distinct_orbits : NoDup [0 * 0; 5 * 5; 7 * 7; 9 * 9; 11 * 11].
Proof.
  repeat (apply NoDup_cons_2;
          [rewrite ?not_elem_of_cons; repeat split; try apply not_elem_of_nil; lra|]).
  apply NoDup_nil_2.
Qed.

(** C4. Every [render] frame issues exactly five draw invocations, for
    Sun, Mercury, Venus, Earth and Mars in this order (Sun first, then by
    increasing orbit distance); each draw is issued with the model
    transform the build order of section 4.4 gives for its body at the
    frame's time, the five transforms are pairwise distinct, and the Sun's
    model transform at any time is the identity uniformly scaled by
    2.5. *)
Theorem frame_draws_five_bodies (w : World) (u0 : Uniforms) :
  exists (w' : World) (calls : list effect),
    render (Some gl.webgl) w = Returned tt w' /\
    log w' = log w ++ calls /\
    let draws := draws_of u0 calls in
    length draws = 5%nat /\
    map draw_model draws = map (spec_model_transform (time w')) bodies /\
    map draw_color draws = map color bodies /\
    map orbitDistance bodies = [0; 5; 7; 9; 11] /\
    NoDup (map draw_model draws) /\
    (forall t : R,
        spec_model_transform t Sun = mat4.scale mat4.create (2.5, 2.5, 2.5) /\
        spec_model_transform t Sun = mat4.scaling (2.5, 2.5, 2.5)).
Proof.
  exists (after_frame w), (frame_log (time w + 0.01) (camera_after (keys w) (camera w))
                                     (projectionMatrix w)).
  split; [apply render_closed|]. split; [reflexivity|].
  set (t := time w + 0.01). set (c := camera_after (keys w) (camera w)).
  assert (Hmodels : map draw_model (draws_of u0 (frame_log t c (projectionMatrix w)))
                    = [model_matrix t 0 2.5 0 0; model_matrix t 5 0.4 1.2 3;
                       model_matrix t 7 0.6 1 2; model_matrix t 9 0.7 0.8 2;
                       model_matrix t 11 0.5 0.7 2]) by reflexivity.
  cbv zeta. rewrite Hmodels.
  split; [reflexivity|]. split; [|split; [reflexivity|split; [reflexivity|split]]].
  - change (time (after_frame w)) with t. unfold bodies.
    cbn [map]. rewrite <- !model_matrix_build_order. reflexivity.
  - apply (NoDup_fmap_1 centre_distance_sq). cbn [fmap list_fmap].
    rewrite !model_matrix_centre_distance_sq. apply distinct_orbits.
  - intros t'.
    assert (Hsun : spec_model_transform t' Sun = mat4.scale mat4.create (2.5, 2.5, 2.5)).
    { rewrite <- model_matrix_build_order. apply sun_model_matrix. }
    split; [exact Hsun|]. rewrite Hsun.
    unfold mat4.scale, mat4.scaling, mat4.create. simpl. f_equal; ring.
Qed.

End Scene.

(** ** The camera controller *)

Section CameraController.

Lemma held_keys_inv (ks : gmap string bool) (l : list string) :
  held_keys ks = l ->
  held ks "w" = bool_decide ("w" ∈ l) /\ held ks "s" = bool_decide ("s" ∈ l) /\
  held ks "a" = bool_decide ("a" ∈ l) /\ held ks "d" = bool_decide ("d" ∈ l) /\
  held ks "q" = bool_decide ("q" ∈ l) /\ held ks "e" = bool_decide ("e" ∈ l) /\
  held ks "r" = bool_decide ("r" ∈ l).
Proof.
  unfold held_keys, polled_keys. cbn [List.filter].
  destruct (held ks "w"), (held ks "s"), (held ks "a"), (held ks "d"),
    (held ks "q"), (held ks "e"), (held ks "r");
    intros <-; repeat split; reflexivity.
Qed.

Lemma camera_after_only_w (ks : gmap string bool) (c : Camera.t) :
  held_keys ks = ["w"] ->
  camera_after ks c
  = move (sin (Camera.yaw c) * 0.2) 0 (- (cos (Camera.yaw c) * 0.2)) c.
Proof.
  intros H. apply held_keys_inv in H as (Hw & Hs & Ha & Hd & Hq & He & Hr).
  unfold camera_after. now rewrite Hw, Hs, Ha, Hd, Hq, He, Hr.
Qed.

Lemma camera_after_only_d (ks : gmap string bool) (c : Camera.t) :
  held_keys ks = ["d"] ->
  camera_after ks c
  = move (cos (Camera.yaw c) * 0.2) 0 (sin (Camera.yaw c) * 0.2) c.
Proof.
  intros H. apply held_keys_inv in H as (Hw & Hs & Ha & Hd & Hq & He & Hr).
  unfold camera_after. now rewrite Hw, Hs, Ha, Hd, Hq, He, Hr.
Qed.

Lemma camera_after_w_and_d (ks : gmap string bool) (c : Camera.t) :
  held_keys ks = ["w"; "d"] ->
  camera_after ks c
  = move (cos (Camera.yaw c) * 0.2) 0 (sin (Camera.yaw c) * 0.2)
         (move (sin (Camera.yaw c) * 0.2) 0 (- (cos (Camera.yaw c) * 0.2)) c).
Proof.
  intros H. apply held_keys_inv in H as (Hw & Hs & Ha & Hd & Hq & He & Hr).
  unfold camera_after. now rewrite Hw, Hs, Ha, Hd, Hq, He, Hr.
Qed.

(** C5. At [yaw = 0], a frame with only [w] held changes [camera.z] by
    exactly [-0.2] and leaves [camera.x] (and [camera.y]) unchanged; a
    frame with [w] and [d] held moves the camera by [(0.2, 0, -0.2)], the
    vector sum of what [w] alone and [d] alone do, with no normalisation
    of the diagonal step. *)
Theorem key_translation_at_yaw_zero (w : World) (only_w only_d w_and_d : gmap string bool) :
  Camera.yaw (camera w) = 0 ->
  held_keys only_w = ["w"] ->
  held_keys only_d = ["d"] ->
  held_keys w_and_d = ["w"; "d"] ->
  let c := camera w in
  (exists w', render (Some gl.webgl) (set_keys only_w w) = Returned tt w' /\
     Camera.z (camera w') = Camera.z c - 0.2 /\
     Camera.x (camera w') = Camera.x c /\
     Camera.y (camera w') = Camera.y c) /\
  (exists w', render (Some gl.webgl) (set_keys w_and_d w) = Returned tt w' /\
     position (camera w') = GLSL.vec3_add (position c) (0.2, 0, -0.2)) /\
  displacement only_w c = (0, 0, -0.2) /\
  displacement only_d c = (0.2, 0, 0) /\
  displacement w_and_d c = (0.2, 0, -0.2) /\
  displacement w_and_d c = GLSL.vec3_add (displacement only_w c) (displacement only_d c).
Proof.
  intros Hyaw Hw Hd Hwd c. subst c.
  pose proof (camera_after_only_w _ (camera w) Hw) as Ew.
  pose proof (camera_after_only_d _ (camera w) Hd) as Ed.
  pose proof (camera_after_w_and_d _ (camera w) Hwd) as Ewd.
  rewrite Hyaw, sin_0, cos_0 in Ew, Ed, Ewd.
  assert (Dw : displacement only_w (camera w) = (0, 0, -0.2)).
  { unfold displacement. rewrite Ew. unfold position, move, GLSL.vec3_sub. simpl.
    apply triple_eq; lra. }
  assert (Dd : displacement only_d (camera w) = (0.2, 0, 0)).
  { unfold displacement. rewrite Ed. unfold position, move, GLSL.vec3_sub. simpl.
    apply triple_eq; lra. }
  assert (Dwd : displacement w_and_d (camera w) = (0.2, 0, -0.2)).
  { unfold displacement. rewrite Ewd. unfold position, move, GLSL.vec3_sub. simpl.
    apply triple_eq; lra. }
  split; [|split; [|split; [exact Dw|split; [exact Dd|split; [exact Dwd|]]]]].
  - exists (after_frame (set_keys only_w w)). split; [apply render_closed|].
    change (camera (after_frame (set_keys only_w w))) with (camera_after only_w (camera w)).
    rewrite Ew. unfold move. simpl. repeat split; lra.
  - exists (after_frame (set_keys w_and_d w)). split; [apply render_closed|].
    change (camera (after_frame (set_keys w_and_d w))) with (camera_after w_and_d (camera w)).
    rewrite Ewd. unfold position, move, GLSL.vec3_add. simpl. apply triple_eq; lra.
  - rewrite Dw, Dd, Dwd. unfold GLSL.vec3_add. apply triple_eq; lra.
Qed.

Lemma key_translation_at_yaw_zero_witness :
  Camera.yaw (camera at_rest) = 0 /\
  held_keys only_w_held = ["w"] /\
  held_keys only_d_held = ["d"] /\
  held_keys w_and_d_held = ["w"; "d"] /\
  (exists w', render (Some gl.webgl) (set_keys only_w_held at_rest) = Returned tt w' /\
     Camera.z (camera w') = 15 - 0.2 /\ Camera.x (camera w') = 0) /\
  displacement w_and_d_held (camera at_rest) = (0.2, 0, -0.2).
Proof.
  assert (Hyaw : Camera.yaw (camera at_rest) = 0) by reflexivity.
  assert (Hw : held_keys only_w_held = ["w"]) by (vm_compute; reflexivity).
  assert (Hd : held_keys only_d_held = ["d"]) by (vm_compute; reflexivity).
  assert (Hwd : held_keys w_and_d_held = ["w"; "d"]) by (vm_compute; reflexivity).
  destruct (key_translation_at_yaw_zero at_rest only_w_held only_d_held w_and_d_held
              Hyaw Hw Hd Hwd)
    as ((w' & Hr & Hz & Hx & _) & _ & _ & _ & Hdisp & _).
  repeat split; try assumption.
  exists w'. repeat split; assumption.
Defined.

(** C10. If [r] is held during a frame, the camera at the end of that
    frame's update is the default (position (0, 2, 15), yaw 0, pitch 0)
    whatever other movement keys are held, because the reset comes after
    all the translation keys. *)
Theorem reset_overrides_movement (w : World) :
  held (keys w) "r" = true ->
  (exists w', camera_movement w = Returned tt w' /\ camera w' = Camera.mk 0 2 15 0 0) /\
  (exists w', render (Some gl.webgl) w = Returned tt w' /\ camera w' = Camera.mk 0 2 15 0 0).
Proof.
  intros Hr. split.
  - exists (set_camera (camera_after (keys w) (camera w)) w).
    split; [apply camera_movement_closed|].
    simpl. now apply camera_after_reset.
  - exists (after_frame w). split; [apply render_closed|].
    simpl. now apply camera_after_reset.
Qed.

Lemma reset_overrides_movement_witness :
  held (keys astray) "r" = true /\
  exists w', render (Some gl.webgl) astray = Returned tt w' /\ camera w' = Camera.mk 0 2 15 0 0.
Proof.
  assert (Hr : held (keys astray) "r" = true) by (vm_compute; reflexivity).
  split; [exact Hr|]. exact (proj2 (reset_overrides_movement astray Hr)).
Defined.

End CameraController.

(** ** The script and the event loop *)

Section EventLoop.

(** Without a context, the first use of the context ends the script. *)
Lemma main_without_context (host : Host) :
  getContext host = None ->
  main host page_loaded = Thrown TypeError (without_context host).
Proof.
  destruct host as [ctx iw ih cs lc]. cbn [getContext]. intros ->. reflexivity.
Qed.

(** With one, the script ends at line 131, where it calls a method the
    context does not have. *)
Lemma main_with_context (host : Host) :
  getContext host = Some gl.webgl ->
  main host page_loaded = Thrown TypeError (stopped_at_line_131 host).
Proof.
  destruct host as [ctx iw ih cs lc]. cbn [getContext]. intros ->.
  unfold main, compileShader, stopped_at_line_131, setup_log, compile_log.
  cbv [getContext innerWidth innerHeight COMPILE_STATUS gl_get mret M_ret mbind M_bind].
  destruct (cs gl.VERTEX_SHADER), (cs gl.FRAGMENT_SHADER); reflexivity.
Qed.

Lemma keydown_registered : (document, "keydown") ∈ registered.
Proof. unfold registered. set_solver. Qed.

Lemma keyup_registered : (document, "keyup") ∈ registered.
Proof. unfold registered. set_solver. Qed.

Lemma mousemove_registered : (canvas, "mousemove") ∈ registered.
Proof. unfold registered. set_solver. Qed.

Lemma run_snoc (host : Host) (evs : list host_event) (ev : host_event) :
  run host (evs ++ [ev]) = world_of (dispatch host ev (run host evs)).
Proof. unfold run. now rewrite fold_left_app. Qed.

Lemma dispatch_idle (host : Host) (ev : host_event) (w : World) :
  listeners w = [] -> frame_requested w = false ->
  dispatch host ev w = Returned tt w.
Proof.
  intros Hl Hf. unfold dispatch, mbind, M_bind, get. rewrite Hl, Hf.
  destruct ev; try reflexivity;
    match goal with
    | |- context [decide ?P] => destruct (decide P) as [Hin|_]; [|reflexivity]
    end; now apply elem_of_nil in Hin.
Qed.

(** Once the script has ended without listeners and without a pending
    frame, no event changes anything. *)
Lemma run_stopped (host : Host) (w : World) (e : exn) (evs : list host_event) :
  main host page_loaded = Thrown e w ->
  listeners w = [] -> frame_requested w = false ->
  run host evs = w.
Proof.
  intros Hmain Hl Hf. induction evs as [|ev evs IH] using rev_ind.
  - unfold run. simpl. now rewrite Hmain.
  - rewrite run_snoc, IH. now rewrite dispatch_idle.
Qed.

Lemma run_without_context (host : Host) (evs : list host_event) :
  getContext host = None -> run host evs = without_context host.
Proof.
  intros Hctx. eapply run_stopped; [now apply main_without_context| |]; reflexivity.
Qed.

Lemma run_with_context (host : Host) (evs : list host_event) :
  getContext host = Some gl.webgl -> run host evs = stopped_at_line_131 host.
Proof.
  intros Hctx. eapply run_stopped; [now apply main_with_context| |]; reflexivity.
Qed.

Lemma held_set_property (ks : gmap string bool) (k : string) (b : bool) :
  k <> "__proto__" -> held (set_property k b ks) k = b.
Proof.
  intros Hk. unfold set_property, held.
  destruct (decide (k = "__proto__")) as [Heq|_]; [now destruct Hk|].
  now rewrite lookup_insert_eq.
Qed.

End EventLoop.

Section ResetAndFailure.

(** C6. Whatever state the camera is in (so in particular in every state
    a sequence of key and mouse mutations can lead to), the reset
    operation restores it exactly to position (0, 2, 15) with yaw 0 and
    pitch 0; and the [r] key invokes it: after the [keydown] listener has
    run for a key whose lower case is [r], the next frame ends with that
    camera. *)
Theorem reset_restores_default (host : Host) (w : World) (key : string) :
  toLowerCase host key = "r" ->
  (exists w', resetCamera w = Returned tt w' /\
     camera w' = Camera.mk 0 2 15 0 0 /\
     position (camera w') = (0, 2, 15) /\
     Camera.yaw (camera w') = 0 /\ Camera.pitch (camera w') = 0) /\
  (exists w1 w2,
     on_keydown host key w = Returned tt w1 /\
     render (Some gl.webgl) w1 = Returned tt w2 /\
     camera w2 = Camera.mk 0 2 15 0 0 /\
     position (camera w2) = (0, 2, 15) /\
     Camera.yaw (camera w2) = 0 /\ Camera.pitch (camera w2) = 0).
Proof.
  intros Hkey. split.
  - eexists. split; [reflexivity|]. repeat split.
  - eexists _, _. split; [reflexivity|]. split; [apply render_closed|].
    assert (Hcam : camera (after_frame
                     (set_keys (set_property (toLowerCase host key) true (keys w)) w))
                   = Camera.mk 0 2 15 0 0).
    { cbn [after_frame camera keys set_keys]. apply camera_after_reset.
      rewrite Hkey. now apply held_set_property. }
    rewrite Hcam. repeat split.
Qed.

Lemma reset_restores_default_witness :
  toLowerCase with_webgl "R" = "r" /\
  exists w1 w2,
    on_keydown with_webgl "R" astray = Returned tt w1 /\
    render (Some gl.webgl) w1 = Returned tt w2 /\
    camera w2 = Camera.mk 0 2 15 0 0.
Proof.
  assert (Hkey : toLowerCase with_webgl "R" = "r") by reflexivity.
  split; [exact Hkey|].
  destruct (proj2 (reset_restores_default with_webgl astray "R" Hkey))
    as (w1 & w2 & H1 & H2 & H3 & _).
  exists w1, w2. repeat split; assumption.
Defined.

(** C8. If the canvas yields no graphics context, the failure is fatal:
    the user gets the blocking notification, the script then dies on its
    first use of the context, and neither during the script nor on any
    later event does the program issue a graphics call (no shader
    creation, buffer upload or draw): nothing is registered and no frame
    is pending. *)
Theorem missing_context_is_fatal (host : Host) (evs : list host_event) :
  getContext host = None ->
  (exists w, main host page_loaded = Thrown TypeError w /\
             log w = [Alert "WebGL not supported."]) /\
  log (run host evs) = [Alert "WebGL not supported."] /\
  (forall c : gl.call, Gl c ∉ log (run host evs)) /\
  listeners (run host evs) = [] /\
  frame_requested (run host evs) = false.
Proof.
  intros Hctx. split.
  - exists (without_context host). split; [now apply main_without_context|reflexivity].
  - rewrite run_without_context by assumption. cbn [without_context log listeners frame_requested].
    repeat split. intros c Hin.
    apply list_elem_of_singleton in Hin. discriminate.
Qed.

Lemma missing_context_is_fatal_witness :
  getContext without_webgl = None /\
  log (run without_webgl some_input) = [Alert "WebGL not supported."].
Proof.
  assert (Hctx : getContext without_webgl = None) by reflexivity.
  split; [exact Hctx|].
  exact (proj1 (proj2 (missing_context_is_fatal without_webgl some_input Hctx))).
Defined.

End ResetAndFailure.

(** ** Further properties of the sphere mesh *)

Section SphereShape.

Import Geometry.

Lemma map_flat_map_blocks {A B C : Type} (g : B -> C) (f : A -> list B) (l : list A) :
  map g (flat_map f l) = flat_map (fun a => map g (f a)) l.
Proof.
  induction l as [|a l IH]; simpl; [reflexivity|].
  now rewrite List.map_app, IH.
Qed.

Lemma vertex_position_grid (r : R) (n lat lon : nat) :
  (lat <= n)%nat -> (lon <= n)%nat ->
  vertex_position (createSphere r n) (lat * (n + 1) + lon)
  = Some (let '(x, y, z) := vertex_direction n lat lon in (r * x, r * y, r * z)).
Proof.
  intros Hlat Hlon. replace (n + 1)%nat with (S n) by lia.
  unfold vertex_position. rewrite positions_createSphere.
  apply triple_at_grid; [apply position_block_length|lia|lia|reflexivity].
Qed.

Lemma INR_div_self (n : nat) (k : R) : (1 <= n)%nat -> INR n * k / INR n = k.
Proof.
  intros Hn. assert (INR n <> 0) by (apply not_0_INR; lia). now field.
Qed.

(** X1. In exact arithmetic, for a segment count [n >= 1] the positions
    are the normals scaled by the radius, whatever the radius (zero and
    negative included), and the normals do not depend on the radius at
    all. *)
Theorem positions_are_scaled_normals (r r' : R) (n : nat) :
  (1 <= n)%nat ->
  positions (createSphere r n) = map (Rmult r) (normals (createSphere r n)) /\
  normals (createSphere r n) = normals (createSphere r' n).
Proof.
  intros _. split.
  - rewrite positions_createSphere, normals_createSphere.
    rewrite map_flat_map_blocks. apply flat_map_ext. intros lat.
    rewrite map_flat_map_blocks. apply flat_map_ext. intros lon.
    reflexivity.
  - now rewrite !normals_createSphere.
Qed.

Lemma positions_are_scaled_normals_witness :
  (1 <= 24)%nat /\
  positions (createSphere 3 24) = map (Rmult 3) (normals (createSphere 3 24)) /\
  normals (createSphere 3 24) = normals sphere.
Proof.
  assert (Hn : (1 <= 24)%nat) by lia.
  split; [exact Hn|]. exact (positions_are_scaled_normals 3 1 24 Hn).
Defined.

(** X2. The mesh is closed along its seam and degenerate at its poles: in
    every latitude row the last vertex (longitude index [n]) coincides
    with the first, every vertex of row 0 is the north pole [(0, r, 0)]
    and every vertex of row [n] is the south pole [(0, -r, 0)]. *)
Theorem sphere_seam_and_poles (r : R) (n lat lon : nat) :
  (1 <= n)%nat -> (lat <= n)%nat -> (lon <= n)%nat ->
  let m := createSphere r n in
  vertex_position m (lat * (n + 1) + n) = vertex_position m (lat * (n + 1) + 0) /\
  vertex_position m (0 * (n + 1) + lon) = Some (0, r, 0) /\
  vertex_position m (n * (n + 1) + lon) = Some (0, - r, 0).
Proof.
  intros Hn Hlat Hlon m. subst m.
  rewrite !vertex_position_grid by lia.
  unfold vertex_direction.
  replace (INR n * 2 * PI / INR n) with (2 * PI)
    by (rewrite <- (INR_div_self n (2 * PI)) by assumption; field;
        apply not_0_INR; lia).
  replace (INR n * PI / INR n) with PI by (now rewrite INR_div_self).
  replace (INR 0 * 2 * PI / INR n) with 0 by (simpl; unfold Rdiv; ring).
  replace (INR 0 * PI / INR n) with 0 by (simpl; unfold Rdiv; ring).
  rewrite sin_2PI, cos_2PI, sin_0, cos_0, sin_PI, cos_PI.
  repeat split; f_equal; apply triple_eq; ring.
Qed.

Lemma sphere_seam_and_poles_witness :
  (1 <= 24)%nat /\ (7 <= 24)%nat /\ (5 <= 24)%nat /\
  vertex_position sphere (7 * 25 + 24) = vertex_position sphere (7 * 25 + 0) /\
  vertex_position sphere 5 = Some (0, 1, 0) /\
  vertex_position sphere (24 * 25 + 5) = Some (0, - (1), 0).
Proof.
  assert (H1 : (1 <= 24)%nat) by lia.
  assert (H2 : (7 <= 24)%nat) by lia.
  assert (H3 : (5 <= 24)%nat) by lia.
  split; [exact H1|]. split; [exact H2|]. split; [exact H3|].
  split; [exact (proj1 (sphere_seam_and_poles 1 24 7 5 H1 H2 H3))|].
  split.
  - exact (proj1 (proj2 (sphere_seam_and_poles 1 24 7 5 H1 H2 H3))).
  - exact (proj2 (proj2 (sphere_seam_and_poles 1 24 7 5 H1 H2 H3))).
Defined.

End SphereShape.

Section SphereTriangles.

Import Geometry.

Lemma index_buffer_exact (r : R) (n : nat) :
  (Z.of_nat ((n + 1) ^ 2) <= 65536)%Z -> indices (createSphere r n) = index_loops n.
Proof.
  intros Hfit. rewrite indices_createSphere. unfold Uint16Array.
  rewrite <- (map_id (index_loops n)) at 2.
  apply map_ext_in. intros i Hi.
  pose proof (index_loops_range n) as Hall.
  rewrite List.Forall_forall in Hall. specialize (Hall i Hi).
  apply ToUint16_small. lia.
Qed.

Lemma quad_lookup (n lat lon c : nat) :
  (lat < n)%nat -> (lon < n)%nat -> (c < 6)%nat ->
  index_loops n !! (6 * (lat * n + lon) + c)%nat = quad_block n lat lon !! c.
Proof.
  intros Hlat Hlon Hc. rewrite index_loops_closed.
  apply (flat_map_grid_lookup (quad_block n) 6); [apply quad_block_length|lia|lia|lia].
Qed.

(** X3. No triangle of the mesh is degenerate in its indices: as long as the
    index buffer does not wrap, the three indices of every one of the
    [2 n^2] triangles are pairwise distinct. *)
Theorem triangles_have_distinct_indices (r : R) (n j : nat) :
  (Z.of_nat ((n + 1) ^ 2) <= 65536)%Z -> (j < 2 * n ^ 2)%nat ->
  exists a b c : Z,
    indices (createSphere r n) !! (3 * j)%nat = Some a /\
    indices (createSphere r n) !! (3 * j + 1)%nat = Some b /\
    indices (createSphere r n) !! (3 * j + 2)%nat = Some c /\
    a <> b /\ b <> c /\ a <> c.
Proof.
  intros Hfit Hj. rewrite index_buffer_exact by assumption.
  assert (Hn : (0 < n)%nat) by (destruct n; [simpl in Hj; lia|lia]).
  rewrite Nat.pow_2_r in Hj.
  set (q := (j / 2)%nat).
  assert (Hq : (q < n * n)%nat) by (apply Nat.Div0.div_lt_upper_bound; lia).
  assert (Hlat : (q / n < n)%nat) by (apply Nat.Div0.div_lt_upper_bound; lia).
  assert (Hlon : (q mod n < n)%nat) by (apply Nat.mod_upper_bound; lia).
  assert (Eq : q = (q / n * n + q mod n)%nat)
    by (rewrite (Nat.div_mod_eq q n) at 1; lia).
  assert (Ej : j = (2 * q + j mod 2)%nat) by apply Nat.div_mod_eq.
  pose proof (Nat.mod_upper_bound j 2) as Ht.
  destruct (j mod 2)%nat as [|[|t]] eqn:Emod; [| |lia].
  - replace (3 * j + 2)%nat with (6 * (q / n * n + q mod n) + 2)%nat by lia.
    replace (3 * j + 1)%nat with (6 * (q / n * n + q mod n) + 1)%nat by lia.
    replace (3 * j)%nat with (6 * (q / n * n + q mod n) + 0)%nat by lia.
    rewrite !quad_lookup by lia.
    unfold quad_block, quad_push, push. simpl.
    eexists _, _, _. repeat split; lia.
  - replace (3 * j + 2)%nat with (6 * (q / n * n + q mod n) + 5)%nat by lia.
    replace (3 * j + 1)%nat with (6 * (q / n * n + q mod n) + 4)%nat by lia.
    replace (3 * j)%nat with (6 * (q / n * n + q mod n) + 3)%nat by lia.
    rewrite !quad_lookup by lia.
    unfold quad_block, quad_push, push. simpl.
    eexists _, _, _. repeat split; lia.
Qed.

Lemma triangles_have_distinct_indices_witness :
  (Z.of_nat ((24 + 1) ^ 2) <= 65536)%Z /\ (1151 < 2 * 24 ^ 2)%nat /\
  exists a b c : Z,
    indices sphere !! 3453%nat = Some a /\
    indices sphere !! 3454%nat = Some b /\
    indices sphere !! 3455%nat = Some c /\
    a <> b /\ b <> c /\ a <> c.
Proof.
  assert (Hfit : (Z.of_nat ((24 + 1) ^ 2) <= 65536)%Z) by (vm_compute; discriminate).
  assert (Hj : (1151 < 2 * 24 ^ 2)%nat) by (vm_compute; lia).
  split; [exact Hfit|]. split; [exact Hj|].
  exact (triangles_have_distinct_indices 1 24 1151 Hfit Hj).
Defined.

(** X4. Beyond 16 bits the index buffer wraps: when [(n+1)^2] exceeds 65536
    the largest generated index, [(n+1)^2 - 1] at place [6 n^2 - 2], is
    stored reduced modulo [2^16], so the buffer no longer holds the
    generated indices. *)
Theorem uint16_wraps_large_meshes (r : R) (n : nat) :
  (1 <= n)%nat -> (65536 < Z.of_nat ((n + 1) ^ 2))%Z ->
  let last := (Z.of_nat ((n + 1) ^ 2) - 1)%Z in
  index_loops n !! (6 * n ^ 2 - 2)%nat = Some last /\
  indices (createSphere r n) !! (6 * n ^ 2 - 2)%nat = Some (last mod 65536)%Z /\
  (last mod 65536 < last)%Z /\
  indices (createSphere r n) <> index_loops n.
Proof.
  intros Hn Hbig last.
  assert (Hraw : index_loops n !! (6 * n ^ 2 - 2)%nat = Some last).
  { replace (6 * n ^ 2 - 2)%nat with (6 * ((n - 1) * n + (n - 1)) + 4)%nat
      by (rewrite Nat.pow_2_r; nia).
    rewrite quad_lookup by lia.
    unfold quad_block, quad_push, push. simpl. f_equal.
    subst last. rewrite Nat.pow_2_r. nia. }
  assert (Hstored : indices (createSphere r n) !! (6 * n ^ 2 - 2)%nat
                    = Some (last mod 65536)%Z).
  { rewrite indices_createSphere. unfold Uint16Array.
    change (map ToUint16 (index_loops n)) with (ToUint16 <$> index_loops n).
    now rewrite list_lookup_fmap, Hraw. }
  assert (Hlt : (last mod 65536 < last)%Z).
  { pose proof (Z.mod_pos_bound last 65536). subst last. lia. }
  repeat split; try assumption.
  intros Heq. rewrite Heq, Hraw in Hstored. injection Hstored. lia.
Qed.

Lemma uint16_wraps_large_meshes_witness :
  (1 <= 256)%nat /\ (65536 < Z.of_nat ((256 + 1) ^ 2))%Z /\
  indices (createSphere 1 256) !! (6 * 256 ^ 2 - 2)%nat = Some 512%Z /\
  indices (createSphere 1 256) <> index_loops 256.
Proof.
  assert (Hn : (1 <= 256)%nat) by lia.
  assert (Hbig : (65536 < Z.of_nat ((256 + 1) ^ 2))%Z) by (vm_compute; reflexivity).
  split; [exact Hn|]. split; [exact Hbig|].
  destruct (uint16_wraps_large_meshes 1 256 Hn Hbig) as (_ & Hs & _ & Hne).
  split; [exact Hs|exact Hne].
Defined.

End SphereTriangles.

(** ** Rigid motions *)

Section RigidMotions.

Import Geometry.

Lemma rotateX_mul (a : mat4.t) (rad : R) :
  mat4.rotateX a rad = mat4.mul a (rotation_x rad).
Proof. destruct a. unfold mat4.rotateX, mat4.mul, rotation_x. simpl. f_equal; ring. Qed.

Lemma transform_point_mul (a b : mat4.t) (p : R * R * R) :
  affine b ->
  mat4.transform_point (mat4.mul a b) p
  = mat4.transform_point a (mat4.transform_point b p).
Proof.
  intros (H3 & H7 & H11 & H15). destruct a, b, p as [[x y] z]. simpl in *. subst.
  unfold mat4.transform_point, mat4.mul. simpl. apply triple_eq; ring.
Qed.

Lemma transform_point_create (p : R * R * R) : mat4.transform_point mat4.create p = p.
Proof. destruct p as [[x y] z]. unfold mat4.transform_point. simpl. apply triple_eq; ring. Qed.

Lemma affine_rotation_x (rad : R) : affine (rotation_x rad).
Proof. repeat split. Qed.

Lemma affine_rotation_y (rad : R) : affine (mat4.rotation_y rad).
Proof. repeat split. Qed.

Lemma affine_translation (v : R * R * R) : affine (mat4.translation v).
Proof. destruct v as [[x y] z]. repeat split. Qed.

Lemma affine_scaling (v : R * R * R) : affine (mat4.scaling v).
Proof. destruct v as [[x y] z]. repeat split. Qed.

Lemma distance_rotation_x (rad : R) (p q : R * R * R) :
  distance (mat4.transform_point (rotation_x rad) p)
           (mat4.transform_point (rotation_x rad) q) = distance p q.
Proof.
  destruct p as [[px py] pz], q as [[qx qy] qz].
  unfold distance, magnitude, mat4.transform_point, rotation_x, GLSL.vec3_sub. simpl.
  f_equal. pose proof (sin2_cos2 rad) as H. unfold Rsqr in H.
  set (s := sin rad) in *. set (c := cos rad) in *.
  replace ((px - qx) * (px - qx) + (py - qy) * (py - qy) + (pz - qz) * (pz - qz))
    with ((px - qx) * (px - qx)
          + (s * s + c * c) * ((py - qy) * (py - qy) + (pz - qz) * (pz - qz)))
    by (rewrite H; ring).
  ring.
Qed.

Lemma distance_rotation_y (rad : R) (p q : R * R * R) :
  distance (mat4.transform_point (mat4.rotation_y rad) p)
           (mat4.transform_point (mat4.rotation_y rad) q) = distance p q.
Proof.
  destruct p as [[px py] pz], q as [[qx qy] qz].
  unfold distance, magnitude, mat4.transform_point, mat4.rotation_y, GLSL.vec3_sub. simpl.
  f_equal. pose proof (sin2_cos2 rad) as H. unfold Rsqr in H.
  set (s := sin rad) in *. set (c := cos rad) in *.
  replace ((px - qx) * (px - qx) + (py - qy) * (py - qy) + (pz - qz) * (pz - qz))
    with ((py - qy) * (py - qy)
          + (s * s + c * c) * ((px - qx) * (px - qx) + (pz - qz) * (pz - qz)))
    by (rewrite H; ring).
  ring.
Qed.

Lemma distance_translation (v p q : R * R * R) :
  distance (mat4.transform_point (mat4.translation v) p)
           (mat4.transform_point (mat4.translation v) q) = distance p q.
Proof.
  destruct v as [[vx vy] vz], p as [[px py] pz], q as [[qx qy] qz].
  unfold distance, magnitude, mat4.transform_point, mat4.translation, GLSL.vec3_sub. simpl.
  f_equal. ring.
Qed.

Lemma distance_scaling (k : R) (p q : R * R * R) :
  0 <= k ->
  distance (mat4.transform_point (mat4.scaling (k, k, k)) p)
           (mat4.transform_point (mat4.scaling (k, k, k)) q) = k * distance p q.
Proof.
  intros Hk. destruct p as [[px py] pz], q as [[qx qy] qz].
  unfold distance, magnitude, mat4.transform_point, mat4.scaling, GLSL.vec3_sub. simpl.
  match goal with
  | |- sqrt ?a = k * sqrt ?b => replace a with (k * k * b) by ring
  end.
  rewrite sqrt_mult_alt by nra. now rewrite sqrt_square.
Qed.

Lemma view_matrix_factors (c : Camera.t) (p : R * R * R) :
  mat4.transform_point (view_matrix c) p
  = mat4.transform_point (rotation_x (Camera.pitch c))
      (mat4.transform_point (mat4.rotation_y (Camera.yaw c))
         (mat4.transform_point
            (mat4.translation (- Camera.x c, - Camera.y c, - Camera.z c)) p)).
Proof.
  unfold view_matrix. rewrite translate_mul, rotateY_mul, rotateX_mul.
  rewrite !transform_point_mul
    by (apply affine_translation || apply affine_rotation_y || apply affine_rotation_x).
  apply transform_point_create.
Qed.

Lemma model_matrix_factors (t D size S spin : R) (p : R * R * R) :
  mat4.transform_point (model_matrix t D size S spin) p
  = mat4.transform_point (mat4.rotation_y (t * S))
      (mat4.transform_point (mat4.translation (D, 0, 0))
         (mat4.transform_point (mat4.rotation_y (t * spin))
            (mat4.transform_point (mat4.scaling (size, size, size)) p))).
Proof.
  unfold model_matrix. rewrite scale_mul, rotateY_mul, translate_mul, rotateY_mul.
  rewrite !transform_point_mul
    by (apply affine_translation || apply affine_rotation_y || apply affine_scaling).
  apply transform_point_create.
Qed.

(** X5. The view transform is a rigid motion that brings the camera to the
    origin: it maps the camera position to [(0, 0, 0)] and preserves the
    distance between any two points, whatever the yaw and the (unclamped)
    pitch. *)
Theorem view_matrix_is_rigid (c : Camera.t) (p q : R * R * R) :
  mat4.transform_point (view_matrix c) (position c) = (0, 0, 0) /\
  distance (mat4.transform_point (view_matrix c) p)
           (mat4.transform_point (view_matrix c) q) = distance p q /\
  magnitude (mat4.transform_point (view_matrix c) p) = distance p (position c).
Proof.
  assert (Horigin : mat4.transform_point (view_matrix c) (position c) = (0, 0, 0)).
  { destruct c as [cx cy cz cp cyw].
    unfold view_matrix, position, mat4.transform_point. simpl. apply triple_eq; ring. }
  assert (Hrigid : forall a b,
             distance (mat4.transform_point (view_matrix c) a)
                      (mat4.transform_point (view_matrix c) b) = distance a b).
  { intros a b. rewrite !view_matrix_factors.
    now rewrite distance_rotation_x, distance_rotation_y, distance_translation. }
  split; [exact Horigin|]. split; [apply Hrigid|].
  rewrite <- (Hrigid p (position c)), Horigin.
  destruct (mat4.transform_point (view_matrix c) p) as [[x y] z].
  unfold distance, GLSL.vec3_sub, magnitude. f_equal. ring.
Qed.

(** X6. [drawPlanet] draws a ball: the model transform sends a local point at
    distance [d] from the local origin to a world point at distance
    [size d] from the body's centre, and the centre does not depend on the
    size or the spin. *)
Theorem model_matrix_scales_about_centre (t D size S spin : R) (p : R * R * R) :
  0 <= size ->
  let centre := mat4.transform_point (model_matrix t D size S spin) (0, 0, 0) in
  distance (mat4.transform_point (model_matrix t D size S spin) p) centre
  = size * magnitude p /\
  centre = body_centre t D S.
Proof.
  intros Hsize centre. subst centre. split.
  - rewrite !model_matrix_factors.
    rewrite distance_rotation_y, distance_translation, distance_rotation_y.
    rewrite distance_scaling by assumption. f_equal.
    destruct p as [[x y] z]. unfold distance, GLSL.vec3_sub, magnitude. f_equal. ring.
  - unfold body_centre. now rewrite !model_matrix_centre.
Qed.

Lemma model_matrix_scales_about_centre_witness :
  0 <= 0.7 /\
  distance (mat4.transform_point (model_matrix 3 9 0.7 0.8 2) (1, 0, 0))
           (mat4.transform_point (model_matrix 3 9 0.7 0.8 2) (0, 0, 0))
  = 0.7 * magnitude (1, 0, 0).
Proof.
  assert (H : 0 <= 0.7) by lra.
  split; [exact H|].
  exact (proj1 (model_matrix_scales_about_centre 3 9 0.7 0.8 2 (1, 0, 0) H)).
Defined.

(** X7. Orbits are periodic: a body with orbit speed [S <> 0] is back at the
    same centre after [2 pi / S] units of time. *)
Theorem orbit_is_periodic (t D S : R) :
  S <> 0 -> body_centre (t + 2 * PI / S) D S = body_centre t D S.
Proof.
  intros HS. unfold body_centre. rewrite !model_matrix_centre.
  replace (S * (t + 2 * PI / S)) with (S * t + 2 * PI) by (field; assumption).
  now rewrite cos_plus, sin_plus, sin_2PI, cos_2PI, !Rmult_0_r, !Rmult_1_r,
    Rminus_0_r, Rplus_0_r.
Qed.

Lemma orbit_is_periodic_witness :
  0.8 <> 0 /\ body_centre (1 + 2 * PI / 0.8) 9 0.8 = body_centre 1 9 0.8.
Proof.
  assert (H : 0.8 <> 0) by lra.
  split; [exact H|]. exact (orbit_is_periodic 1 9 0.8 H).
Defined.

End RigidMotions.

(** ** Shading the scene *)

Section Shading.

Import Geometry GLSL VertexStage.

Lemma vertex_at_index (r : R) (n i : nat) :
  0 < r -> (i < (n + 1) ^ 2)%nat ->
  exists px py pz : R,
    vertex_position (createSphere r n) i = Some (px, py, pz) /\
    magnitude (px, py, pz) = r /\
    vertex_normal (createSphere r n) i = Some (px / r, py / r, pz / r).
Proof.
  intros Hr Hi.
  assert (Hlat : (i / (n + 1) <= n)%nat).
  { apply Nat.lt_succ_r. replace (S n) with (n + 1)%nat by lia.
    apply Nat.Div0.div_lt_upper_bound. rewrite Nat.pow_2_r in Hi. exact Hi. }
  assert (Hlon : (i mod (n + 1) <= n)%nat).
  { pose proof (Nat.mod_upper_bound i (n + 1)). lia. }
  destruct (vertex_at_lat_lon r n _ _ Hr Hlat Hlon)
    as (px & py & pz & Hp & _ & _ & _ & Hm & Hnm).
  replace (i / (n + 1) * (n + 1) + i mod (n + 1))%nat with i in Hp, Hnm
    by (rewrite (Nat.div_mod_eq i (n + 1)) at 1; lia).
  exists px, py, pz. repeat split; assumption.
Qed.

Lemma world_position (m : mat4.t) (p : vec3) :
  rgb (mat4_times_vec4 m (vec4_of p 1)) = mat4.transform_point m p.
Proof.
  destruct m, p as [[x y] z]. unfold rgb, mat4_times_vec4, vec4_of, mat4.transform_point.
  simpl. apply triple_eq; ring.
Qed.

Lemma linear_part (m : mat4.t) (p : vec3) :
  mat3_times_vec3 m p
  = vec3_sub (mat4.transform_point m p) (mat4.transform_point m (0, 0, 0)).
Proof.
  destruct m, p as [[x y] z]. unfold mat3_times_vec3, vec3_sub, mat4.transform_point.
  simpl. apply triple_eq; ring.
Qed.

(** X8. What the vertex stage makes of the sphere mesh under [drawPlanet]'s
    model matrix: every vertex lands on the sphere of radius [size] around
    the body's centre, and the normal handed to the fragment stage is the
    vector from that centre to the vertex, so its direction is the outward
    normal of the drawn ball. *)
Theorem vertex_stage_on_sphere (i : nat) (t D size S spin : R) (view projection : mat4.t) :
  0 <= size -> (i < 625)%nat ->
  exists aPosition aNormal : vec3,
    vertex_position sphere i = Some aPosition /\
    vertex_normal sphere i = Some aNormal /\
    let out := vertex_main aPosition aNormal (model_matrix t D size S spin) view projection in
    vFragPos out = mat4.transform_point (model_matrix t D size S spin) aPosition /\
    distance (vFragPos out) (body_centre t D S) = size /\
    vNormal out = vec3_sub (vFragPos out) (body_centre t D S).
Proof.
  intros Hsize Hi.
  destruct (vertex_at_index 1 24 i) as (px & py & pz & Hp & Hm & Hn); [lra|exact Hi|].
  exists (px, py, pz), (px / 1, py / 1, pz / 1).
  split; [exact Hp|]. split; [exact Hn|].
  assert (Hcentre : mat4.transform_point (model_matrix t D size S spin) (0, 0, 0)
                    = body_centre t D S).
  { unfold body_centre. now rewrite !model_matrix_centre. }
  cbv zeta. unfold vertex_main. cbn [vFragPos vNormal].
  rewrite world_position. split; [reflexivity|]. split.
  - rewrite <- Hcentre.
    rewrite !model_matrix_factors.
    rewrite distance_rotation_y, distance_translation, distance_rotation_y.
    rewrite distance_scaling by assumption.
    replace (distance (px, py, pz) (0, 0, 0)) with (magnitude (px, py, pz)).
    + rewrite Hm. ring.
    + unfold distance, vec3_sub, magnitude. f_equal. ring.
  - replace (px / 1, py / 1, pz / 1) with (px, py, pz) by (apply triple_eq; field).
    rewrite linear_part. now rewrite Hcentre.
Qed.

Lemma vertex_stage_on_sphere_witness :
  0 <= 0.5 /\ (100 < 625)%nat /\
  exists aPosition aNormal : vec3,
    vertex_position sphere 100 = Some aPosition /\
    vertex_normal sphere 100 = Some aNormal /\
    distance (vFragPos (vertex_main aPosition aNormal (model_matrix 4 11 0.5 0.7 2)
                                    mat4.create mat4.create))
             (body_centre 4 11 0.7) = 0.5.
Proof.
  assert (Hs : 0 <= 0.5) by lra.
  assert (Hi : (100 < 625)%nat) by lia.
  split; [exact Hs|]. split; [exact Hi|].
  destruct (vertex_stage_on_sphere 100 4 11 0.5 0.7 2 mat4.create mat4.create Hs Hi)
    as (p & nrm & Hp & Hn & _ & Hd & _).
  exists p, nrm. repeat split; assumption.
Defined.

End Shading.

Section SunShading.

Import GLSL.

Lemma quad_eq (a b c d a' b' c' d' : R) :
  a = a' -> b = b' -> c = c' -> d = d' -> (a, b, c, d) = (a', b', c', d').
Proof. now intros -> -> -> ->. Qed.

Lemma dot_self_pos (p : vec3) : p <> (0, 0, 0) -> 0 < dot p p.
Proof.
  destruct p as [[x y] z]. intros Hp. unfold dot.
  destruct (Req_dec x 0) as [Hx|Hx]; [|nra].
  destruct (Req_dec y 0) as [Hy|Hy]; [|nra].
  destruct (Req_dec z 0) as [Hz|Hz]; [|nra].
  subst. now destruct Hp.
Qed.

Lemma length_pos (p : vec3) : p <> (0, 0, 0) -> 0 < length p.
Proof. intros Hp. unfold length. apply sqrt_lt_R0. now apply dot_self_pos. Qed.

Lemma length_nonneg (p : vec3) : 0 <= length p.
Proof. unfold length. apply sqrt_pos. Qed.

Lemma length_sqr (p : vec3) : length p * length p = dot p p.
Proof.
  unfold length. apply sqrt_sqrt. destruct p as [[x y] z]. unfold dot. nra.
Qed.

Lemma length_from_origin (p : vec3) : length (vec3_sub (0, 0, 0) p) = length p.
Proof.
  destruct p as [[x y] z]. unfold length, vec3_sub, dot. f_equal. ring.
Qed.

Lemma normalize_from_origin (p : vec3) :
  normalize (vec3_sub (0, 0, 0) p) = vec3_neg (normalize p).
Proof.
  unfold normalize at 1. rewrite length_from_origin.
  destruct p as [[x y] z]. unfold vec3_sub, vec3_neg, normalize.
  apply triple_eq; unfold Rdiv; ring.
Qed.

Lemma vec3_neg_neg (p : vec3) : vec3_neg (vec3_neg p) = p.
Proof. destruct p as [[x y] z]. unfold vec3_neg. apply triple_eq; ring. Qed.

Lemma dot_normalize_self (p : vec3) : p <> (0, 0, 0) -> dot (normalize p) (normalize p) = 1.
Proof.
  intros Hp. pose proof (length_pos p Hp) as Hl. pose proof (length_sqr p) as Hs.
  destruct p as [[x y] z]. unfold normalize.
  set (l := length (x, y, z)) in *. unfold dot in *.
  replace (x / l * (x / l) + y / l * (y / l) + z / l * (z / l))
    with ((x * x + y * y + z * z) / (l * l)) by (field; lra).
  rewrite <- Hs. field. lra.
Qed.

Lemma dot_neg_r (a b : vec3) : dot a (vec3_neg b) = - dot a b.
Proof.
  destruct a as [[ax ay] az], b as [[bx by_] bz]. unfold dot, vec3_neg. ring.
Qed.

Lemma reflect_self (n : vec3) : dot n n = 1 -> reflect n n = vec3_neg n.
Proof.
  intros Hn. unfold reflect. rewrite Hn.
  destruct n as [[x y] z]. unfold vec3_sub, vec3_scale, vec3_neg. apply triple_eq; ring.
Qed.

Lemma inv_nonneg (x : R) : 0 <= x -> 0 <= / x.
Proof.
  intros [Hx|<-].
  - left. now apply Rinv_0_lt_compat.
  - rewrite Rinv_0. lra.
Qed.

Lemma dot_normalize (a b : vec3) :
  dot (normalize a) (normalize b) = dot a b * (/ length a * / length b).
Proof.
  destruct a as [[ax ay] az], b as [[bx by_] bz]. unfold normalize.
  set (la := length (ax, ay, az)). set (lb := length (bx, by_, bz)).
  unfold dot, Rdiv. ring.
Qed.

(** X9. The Sun is not lit by its own light.  The light sits at the Sun's
    centre, the world origin, so on a fragment of a ball centred there
    (normal along the fragment position) the diffuse term vanishes, and
    where the surface faces the eye the specular term vanishes too: the
    fragment comes out at one tenth of the body colour. *)
Theorem sun_is_ambient_only (p eye : vec3) (cr cg cb ca : R) :
  p <> (0, 0, 0) ->
  0 <= dot (vec3_sub eye p) p ->
  fragment_main p p (0, 0, 0) eye (cr, cg, cb, ca) = (0.1 * cr, 0.1 * cg, 0.1 * cb, 1).
Proof.
  intros Hp Hfacing. unfold fragment_main.
  rewrite normalize_from_origin, vec3_neg_neg.
  rewrite dot_neg_r, (dot_normalize_self p Hp).
  rewrite (reflect_self _ (dot_normalize_self p Hp)).
  rewrite dot_neg_r, dot_normalize.
  assert (Hdiff : max (- (1)) 0 = 0) by (unfold max; apply Rmax_right; lra).
  assert (Hspec : max (- (dot (vec3_sub eye p) p
                            * (/ length (vec3_sub eye p) * / length p))) 0 = 0).
  { unfold max. apply Rmax_right.
    pose proof (inv_nonneg _ (length_nonneg (vec3_sub eye p))).
    pose proof (inv_nonneg _ (length_nonneg p)).
    assert (0 <= / length (vec3_sub eye p) * / length p) by now apply Rmult_le_pos.
    assert (0 <= dot (vec3_sub eye p) p * (/ length (vec3_sub eye p) * / length p))
      by now apply Rmult_le_pos.
    lra. }
  rewrite Hdiff, Hspec. unfold pow32, rgb, vec3_scale, vec3_splat, vec3_add, vec4_of.
  rewrite pow_ne_zero by lia.
  apply quad_eq; ring.
Qed.

Lemma sun_is_ambient_only_witness :
  (0, 0, 2.5) <> (0, 0, 0) /\
  0 <= dot (vec3_sub (0, 2, 15) (0, 0, 2.5)) (0, 0, 2.5) /\
  fragment_main (0, 0, 2.5) (0, 0, 2.5) (0, 0, 0) (0, 2, 15) (1, 1, 0, 1)
  = (0.1 * 1, 0.1 * 1, 0.1 * 0, 1).
Proof.
  assert (Hp : (0, 0, 2.5) <> (0, 0, 0)) by (intros H; injection H; lra).
  assert (Hf : 0 <= dot (vec3_sub (0, 2, 15) (0, 0, 2.5)) (0, 0, 2.5))
    by (unfold dot, vec3_sub; lra).
  split; [exact Hp|]. split; [exact Hf|].
  exact (sun_is_ambient_only (0, 0, 2.5) (0, 2, 15) 1 1 0 1 Hp Hf).
Defined.

End SunShading.

(** ** The script with a context *)

Section Script.

Lemma setup_log_console_errors (host : Host) :
  List.filter is_console_error (setup_log host) = map ConsoleError (failing_shaders host).
Proof.
  unfold setup_log, compile_log, failing_shaders. cbn [List.filter].
  now destruct (COMPILE_STATUS host gl.VERTEX_SHADER),
    (COMPILE_STATUS host gl.FRAGMENT_SHADER).
Qed.

Lemma setup_log_quiet (host : Host) :
  List.filter is_upload (setup_log host) = [] /\ List.filter is_draw (setup_log host) = [].
Proof.
  unfold setup_log, compile_log.
  now destruct (COMPILE_STATUS host gl.VERTEX_SHADER),
    (COMPILE_STATUS host gl.FRAGMENT_SHADER).
Qed.

Lemma setup_log_links (host : Host) :
  exists before after : list effect,
    setup_log host
    = before ++ [Gl gl.createProgram; Gl (gl.attachShader gl.VERTEX_SHADER);
                 Gl (gl.attachShader gl.FRAGMENT_SHADER); Gl gl.linkProgram;
                 Gl gl.useProgram] ++ after.
Proof.
  exists (compile_log host gl.VERTEX_SHADER ++ compile_log host gl.FRAGMENT_SHADER).
  eexists. unfold setup_log. rewrite <- app_assoc. reflexivity.
Qed.

Lemma compileShader_closed (host : Host) (type : gl.shader) (w : World) :
  compileShader (Some gl.webgl) host type w
  = Returned type (mkWorld (canvas_width w) (canvas_height w) (projectionMatrix w)
                           (camera w) (keys w) (time w) (listeners w)
                           (frame_requested w) (log w ++ compile_log host type)).
Proof.
  destruct w as [wd ht pm c ks t ls fr lg].
  unfold compileShader, compile_log.
  cbv [mbind M_bind mret M_ret gl_call gl.provides modify add_effect console_error
       time canvas_width canvas_height projectionMatrix camera keys listeners
       frame_requested log].
  destruct (COMPILE_STATUS host type); cbv [negb]; rewrite <- ?app_assoc; reflexivity.
Qed.

(** X11. A shader that fails to compile does not stop anything:
    [compileShader] on a context never throws, makes the same four calls
    plus, exactly when the compile status is false, [getShaderInfoLog]
    and one [console.error], and returns the shader either way; the
    script goes on to attach both shaders and to link and use the
    program, and its log holds one [console.error] for each failing
    shader. *)
Theorem shader_failure_does_not_stop_setup (host : Host) (type : gl.shader) (w : World) :
  getContext host = Some gl.webgl ->
  (exists w', compileShader (getContext host) host type w = Returned type w' /\
     log w' = log w ++ compile_log host type /\
     List.filter is_console_error (compile_log host type)
     = (if COMPILE_STATUS host type then [] else [ConsoleError type])) /\
  (exists (wm : World) (before after : list effect),
     main host page_loaded = Thrown TypeError wm /\
     List.filter is_console_error (log wm) = map ConsoleError (failing_shaders host) /\
     log wm = before ++ [Gl gl.createProgram; Gl (gl.attachShader gl.VERTEX_SHADER);
                         Gl (gl.attachShader gl.FRAGMENT_SHADER); Gl gl.linkProgram;
                         Gl gl.useProgram] ++ after).
Proof.
  intros Hctx. split.
  - rewrite Hctx, compileShader_closed. eexists. split; [reflexivity|].
    split; [reflexivity|]. unfold compile_log. now destruct (COMPILE_STATUS host type).
  - destruct (setup_log_links host) as (before & after & Hlog).
    exists (stopped_at_line_131 host), before, after.
    split; [now apply main_with_context|].
    split; [apply setup_log_console_errors|exact Hlog].
Qed.

Lemma shader_failure_does_not_stop_setup_witness :
  getContext flaky_host = Some gl.webgl /\
  (exists w', compileShader (getContext flaky_host) flaky_host gl.FRAGMENT_SHADER page_loaded
              = Returned gl.FRAGMENT_SHADER w' /\
     List.filter is_console_error (log w') = [ConsoleError gl.FRAGMENT_SHADER]) /\
  exists wm, main flaky_host page_loaded = Thrown TypeError wm /\
    List.filter is_console_error (log wm) = [ConsoleError gl.FRAGMENT_SHADER].
Proof.
  assert (Hctx : getContext flaky_host = Some gl.webgl) by reflexivity.
  split; [exact Hctx|].
  destruct (shader_failure_does_not_stop_setup flaky_host gl.FRAGMENT_SHADER page_loaded Hctx)
    as ((w' & Hc & Hl & _) & (wm & _ & _ & Hm & He & _)).
  split.
  - exists w'. split; [exact Hc|]. now rewrite Hl.
  - exists wm. split; [exact Hm|exact He].
Defined.

(** X12. With the context it asks for the script never gets to render:
    it compiles the shaders, links the program and queries the locations,
    then throws a [TypeError] at line 131, where it calls
    [createVertexArray] on a WebGL 1 context.  Nothing is uploaded or
    drawn, no listener is registered and no frame is requested, so no
    later event has any effect. *)
Theorem script_stops_at_vertex_array (host : Host) (evs : list host_event) :
  getContext host = Some gl.webgl ->
  (exists w, main host page_loaded = Thrown TypeError w) /\
  log (run host evs) = setup_log host /\
  last (log (run host evs)) = Some (Gl (gl.getUniformLocation gl.uColor)) /\
  List.filter is_upload (log (run host evs)) = [] /\
  List.filter is_draw (log (run host evs)) = [] /\
  listeners (run host evs) = [] /\
  frame_requested (run host evs) = false.
Proof.
  intros Hctx. split; [eexists; now apply main_with_context|].
  rewrite run_with_context by assumption.
  cbn [stopped_at_line_131 log listeners frame_requested].
  destruct (setup_log_quiet host) as [Hu Hd].
  repeat split; try assumption.
  unfold setup_log. rewrite !app_assoc.
  match goal with
  | |- last (?l ++ ?l') = _ => rewrite (last_app l l')
  end. reflexivity.
Qed.

Lemma script_stops_at_vertex_array_witness :
  getContext with_webgl = Some gl.webgl /\
  (exists w, main with_webgl page_loaded = Thrown TypeError w) /\
  List.filter is_draw (log (run with_webgl some_input)) = [] /\
  listeners (run with_webgl some_input) = [].
Proof.
  assert (Hctx : getContext with_webgl = Some gl.webgl) by reflexivity.
  split; [exact Hctx|].
  destruct (script_stops_at_vertex_array with_webgl some_input Hctx)
    as (Hm & _ & _ & _ & Hd & Hl & _).
  split; [exact Hm|]. split; [exact Hd|exact Hl].
Defined.

End Script.

(** ** A running event loop

    The properties below are about the listeners and the frame callback
    themselves: they start from any world in which the listeners are
    registered and a frame is pending. *)

Section RunningProgram.

Lemma running_after_frame (w : World) :
  listeners w = registered -> running (after_frame w).
Proof. intros Hl. split; [exact Hl|reflexivity]. Qed.

Lemma dispatch_input (host : Host) (w : World) (ev : host_event) :
  ev <> AnimationFrame -> listeners w = registered ->
  dispatch host ev w = Returned tt (step host ev w).
Proof.
  intros Hev Hl. destruct ev as [key|key|buttons mx my|]; [| | |now destruct Hev];
    unfold dispatch, mbind, M_bind, get; rewrite Hl.
  - destruct (decide ((document, "keydown") ∈ registered)) as [_|Hn]; [reflexivity|].
    destruct Hn. apply keydown_registered.
  - destruct (decide ((document, "keyup") ∈ registered)) as [_|Hn]; [reflexivity|].
    destruct Hn. apply keyup_registered.
  - destruct (decide ((canvas, "mousemove") ∈ registered)) as [_|Hn];
      [|destruct Hn; apply mousemove_registered].
    unfold on_mousemove, step. now destruct (decide (buttons = 1%Z)).
Qed.

Lemma running_step_input (host : Host) (w : World) (ev : host_event) :
  ev <> AnimationFrame -> running w -> running (step host ev w).
Proof.
  intros Hev Hrun. destruct ev as [key|key|buttons mx my|]; [| | |now destruct Hev];
    cbn [step]; try exact Hrun.
  now destruct (decide (buttons = 1%Z)).
Qed.

Lemma dispatch_step (host : Host) (w : World) (ev : host_event) :
  getContext host = Some gl.webgl -> running w ->
  dispatch host ev w = Returned tt (step host ev w) /\ running (step host ev w).
Proof.
  intros Hctx Hrun.
  assert (Hinput : ev <> AnimationFrame ->
            dispatch host ev w = Returned tt (step host ev w) /\ running (step host ev w)).
  { intros Hev. split; [apply dispatch_input; [assumption|apply Hrun]|].
    now apply running_step_input. }
  destruct ev as [key|key|buttons mx my|]; try (apply Hinput; discriminate).
  destruct Hrun as [Hl Hf]. unfold dispatch, mbind, M_bind, get, modify.
  rewrite Hf, Hctx, render_closed. split; [reflexivity|].
  now apply running_after_frame.
Qed.

Lemma deliver_snoc (host : Host) (evs : list host_event) (ev : host_event) (w : World) :
  deliver host (evs ++ [ev]) w = world_of (dispatch host ev (deliver host evs w)).
Proof. unfold deliver. now rewrite fold_left_app. Qed.

Lemma deliver_cons (host : Host) (ev : host_event) (evs : list host_event) (w : World) :
  getContext host = Some gl.webgl -> running w ->
  deliver host (ev :: evs) w = deliver host evs (step host ev w).
Proof.
  intros Hctx Hrun. unfold deliver. simpl.
  now destruct (dispatch_step host w ev Hctx Hrun) as [-> _].
Qed.

(** Induction over what a running world can become. *)
Lemma deliver_ind (host : Host) (P : list host_event -> World -> Prop) (w : World) :
  getContext host = Some gl.webgl -> running w ->
  P [] w ->
  (forall evs ev w', running w' -> P evs w' -> P (evs ++ [ev]) (step host ev w')) ->
  forall evs, P evs (deliver host evs w) /\ running (deliver host evs w).
Proof.
  intros Hctx Hrun H0 Hstep evs. induction evs as [|ev evs [IH IHrun]] using rev_ind.
  - split; assumption.
  - rewrite deliver_snoc.
    destruct (dispatch_step host _ ev Hctx IHrun) as [-> Hrun']. cbn [world_of].
    split; [now apply Hstep|exact Hrun'].
Qed.

End RunningProgram.

Section Accounting.

Lemma frames_snoc (evs : list host_event) (ev : host_event) :
  frames (evs ++ [ev])
  = (frames evs + match ev with AnimationFrame => 1 | _ => 0 end)%nat.
Proof.
  unfold frames. rewrite List.filter_app, List.length_app. now destruct ev.
Qed.

(** What delivering events to a running world does to the clock, the log
    and the set-up. *)
Lemma deliver_accounting (host : Host) (w : World) (evs : list host_event) :
  getContext host = Some gl.webgl -> running w ->
  let w' := deliver host evs w in
  time w' = time w + 0.01 * INR (frames evs) /\
  List.length (List.filter is_draw (log w'))
  = (List.length (List.filter is_draw (log w)) + 5 * frames evs)%nat /\
  List.filter is_upload (log w') = List.filter is_upload (log w) /\
  projectionMatrix w' = projectionMatrix w /\
  (canvas_width w', canvas_height w') = (canvas_width w, canvas_height w).
Proof.
  intros Hctx Hrun. cbv zeta.
  apply (deliver_ind host (fun evs w' =>
    time w' = time w + 0.01 * INR (frames evs) /\
    List.length (List.filter is_draw (log w'))
    = (List.length (List.filter is_draw (log w)) + 5 * frames evs)%nat /\
    List.filter is_upload (log w') = List.filter is_upload (log w) /\
    projectionMatrix w' = projectionMatrix w /\
    (canvas_width w', canvas_height w') = (canvas_width w, canvas_height w)));
    [exact Hctx|exact Hrun| |].
  - repeat split; try reflexivity.
    + simpl. ring.
    + simpl. lia.
  - intros evs' ev w' _ (Ht & Hd & Hu & Hp & Hs).
    rewrite frames_snoc. destruct ev as [key|key|b mx my|]; cbn [step].
    + rewrite Nat.add_0_r. repeat split; assumption.
    + rewrite Nat.add_0_r. repeat split; assumption.
    + rewrite Nat.add_0_r. destruct (decide (b = 1%Z)); repeat split; assumption.
    + cbn [after_frame set_frame_requested time log projectionMatrix keys camera
           canvas_width canvas_height].
      rewrite !List.filter_app, Hu, List.length_app, Hd.
      repeat split; try assumption; try apply app_nil_r.
      * rewrite Ht, (plus_INR _ 1). simpl. lra.
      * simpl. lia.
Qed.

(** X10. On a running event loop the clock and the draw calls keep step
    with the frames: delivering events that contain [k] frame callbacks
    advances [time] by [0.01 k] and adds exactly [5 k] draw calls to the
    log, and a further frame is requested at the end. *)
Theorem frames_advance_time_and_draw (host : Host) (w : World) (evs : list host_event) :
  getContext host = Some gl.webgl -> running w ->
  let w' := deliver host evs w in
  time w' = time w + 0.01 * INR (frames evs) /\
  List.length (List.filter is_draw (log w'))
  = (List.length (List.filter is_draw (log w)) + 5 * frames evs)%nat /\
  frame_requested w' = true.
Proof.
  intros Hctx Hrun. cbv zeta.
  destruct (deliver_accounting host w evs Hctx Hrun) as (Ht & Hd & _).
  split; [exact Ht|]. split; [exact Hd|].
  apply (deliver_ind host (fun _ _ => True) w Hctx Hrun I (fun _ _ _ _ _ => I) evs).
Qed.

Lemma frames_advance_time_and_draw_witness :
  getContext with_webgl = Some gl.webgl /\ running idling /\
  time (deliver with_webgl some_input idling) = 0 + 0.01 * INR 3 /\
  List.length (List.filter is_draw (log (deliver with_webgl some_input idling))) = 15%nat.
Proof.
  assert (Hctx : getContext with_webgl = Some gl.webgl) by reflexivity.
  assert (Hrun : running idling) by (split; reflexivity).
  split; [exact Hctx|]. split; [exact Hrun|].
  destruct (frames_advance_time_and_draw with_webgl idling some_input Hctx Hrun)
    as (Ht & Hd & _).
  split; [exact Ht|exact Hd].
Defined.

(** X20. Events leave the set-up alone: delivering any events to a
    running event loop adds no [bufferData] upload to the log (frames
    upload nothing) and changes neither the projection matrix nor the
    canvas size (nothing handles a resize). *)
Theorem events_leave_setup_alone (host : Host) (w : World) (evs : list host_event) :
  getContext host = Some gl.webgl -> running w ->
  let w' := deliver host evs w in
  List.filter is_upload (log w') = List.filter is_upload (log w) /\
  projectionMatrix w' = projectionMatrix w /\
  (canvas_width w', canvas_height w') = (canvas_width w, canvas_height w).
Proof.
  intros Hctx Hrun. cbv zeta.
  destruct (deliver_accounting host w evs Hctx Hrun) as (_ & _ & Hu & Hp & Hs).
  repeat split; assumption.
Qed.

Lemma events_leave_setup_alone_witness :
  getContext with_webgl = Some gl.webgl /\ running idling /\
  List.filter is_upload (log (deliver with_webgl some_input idling)) = [] /\
  projectionMatrix (deliver with_webgl some_input idling)
  = mat4.perspective (PI / 4) (800 / 600) 0.1 100.
Proof.
  assert (Hctx : getContext with_webgl = Some gl.webgl) by reflexivity.
  assert (Hrun : running idling) by (split; reflexivity).
  split; [exact Hctx|]. split; [exact Hrun|].
  destruct (events_leave_setup_alone with_webgl idling some_input Hctx Hrun) as (Hu & Hp & _).
  split; [exact Hu|exact Hp].
Defined.

End Accounting.

(** ** Input handling *)

Section Input.

Import Geometry.

Lemma held_set_property_other (ks : gmap string bool) (k k' : string) (b : bool) :
  k <> k' -> held (set_property k b ks) k' = held ks k'.
Proof.
  intros Hne. unfold set_property, held.
  destruct (decide (k = "__proto__")); [reflexivity|].
  now rewrite lookup_insert_ne.
Qed.

(** X13. A key is held from its [keydown] until its [keyup], whatever the
    letter case of either event.  On a running event loop, for a key
    whose lower-cased name [k] is not [__proto__]: after its [keydown]
    and any further events that do not release it, [keys[k]] is truthy;
    a [keyup] whose key has the same lower case then makes it falsy. *)
Theorem key_stays_held_until_released (host : Host) (w : World) (evs : list host_event)
    (key key' : string) :
  getContext host = Some gl.webgl -> running w ->
  existsb (releases host key) evs = false ->
  toLowerCase host key' = toLowerCase host key ->
  toLowerCase host key <> "__proto__" ->
  held (keys (deliver host (KeyDown key :: evs) w)) (toLowerCase host key) = true /\
  held (keys (deliver host ((KeyDown key :: evs) ++ [KeyUp key']) w)) (toLowerCase host key)
  = false.
Proof.
  intros Hctx Hrun Hfree Hcase Hproto.
  assert (Hdown : held (keys (deliver host (KeyDown key :: evs) w)) (toLowerCase host key)
                  = true
                  /\ running (deliver host (KeyDown key :: evs) w)).
  { rewrite deliver_cons by assumption.
    assert (Hrun' : running (step host (KeyDown key) w)) by apply Hrun.
    destruct (deliver_ind host (fun evs w' =>
                existsb (releases host key) evs = false ->
                held (keys w') (toLowerCase host key) = true) _ Hctx Hrun') with (evs := evs)
      as [Hheld Hrunning].
    - intros _. cbn [step keys set_keys]. now apply held_set_property.
    - intros l ev w' _ IH Hl. rewrite existsb_app in Hl.
      apply orb_false_iff in Hl as [Hl Hev]. specialize (IH Hl).
      destruct ev as [k|k|b mx my|]; cbn [step].
      + cbn [keys set_keys].
        destruct (decide (toLowerCase host k = toLowerCase host key)) as [->|Hne].
        * now apply held_set_property.
        * now rewrite held_set_property_other.
      + cbn [keys set_keys]. rewrite held_set_property_other; [exact IH|].
        intros Heq. simpl in Hev.
        rewrite bool_decide_eq_true_2 in Hev by assumption. discriminate.
      + now destruct (decide (b = 1%Z)).
      + exact IH.
    - split; [now apply Hheld|exact Hrunning]. }
  destruct Hdown as [Hdown Hrunning]. split; [exact Hdown|].
  rewrite deliver_snoc.
  destruct (dispatch_step host _ (KeyUp key') Hctx Hrunning) as [-> _].
  cbn [world_of step keys set_keys]. rewrite Hcase. now apply held_set_property.
Qed.

Lemma key_stays_held_until_released_witness :
  getContext with_webgl = Some gl.webgl /\ running idling /\
  existsb (releases with_webgl "W") more_input = false /\
  toLowerCase with_webgl "w" = toLowerCase with_webgl "W" /\
  toLowerCase with_webgl "W" <> "__proto__" /\
  held (keys (deliver with_webgl (KeyDown "W" :: more_input) idling)) "w" = true /\
  held (keys (deliver with_webgl ((KeyDown "W" :: more_input) ++ [KeyUp "w"]) idling)) "w"
  = false.
Proof.
  assert (Hctx : getContext with_webgl = Some gl.webgl) by reflexivity.
  assert (Hrun : running idling) by (split; reflexivity).
  assert (Hfree : existsb (releases with_webgl "W") more_input = false) by reflexivity.
  assert (Hcase : toLowerCase with_webgl "w" = toLowerCase with_webgl "W") by reflexivity.
  assert (Hproto : toLowerCase with_webgl "W" <> "__proto__") by (vm_compute; discriminate).
  split; [exact Hctx|]. split; [exact Hrun|]. split; [exact Hfree|].
  split; [exact Hcase|]. split; [exact Hproto|].
  exact (key_stays_held_until_released with_webgl idling more_input "W" "w"
           Hctx Hrun Hfree Hcase Hproto).
Defined.

Lemma deliver_input_cons (host : Host) (ev : host_event) (evs : list host_event) (w : World) :
  ev <> AnimationFrame -> listeners w = registered ->
  deliver host (ev :: evs) w = deliver host evs (step host ev w).
Proof.
  intros Hev Hl. unfold deliver. simpl. now rewrite dispatch_input.
Qed.

Lemma drag_steps (host : Host) (n : nat) (dx dy : R) (w : World) :
  listeners w = registered ->
  camera (deliver host (replicate n (MouseMove 1 dx dy)) w)
  = Camera.mk (Camera.x (camera w)) (Camera.y (camera w)) (Camera.z (camera w))
              (Camera.pitch (camera w) - INR n * (dy * 0.002))
              (Camera.yaw (camera w) + INR n * (dx * 0.002)).
Proof.
  revert w. induction n as [|n IH]; intros w Hl.
  - simpl. destruct (camera w). simpl. f_equal; ring.
  - cbn [replicate]. rewrite deliver_input_cons by (discriminate || assumption).
    cbn [step]. destruct (decide (1%Z = 1%Z)) as [_|Hn]; [|now destruct Hn].
    rewrite IH by exact Hl.
    rewrite S_INR.
    cbn [camera set_camera Camera.x Camera.y Camera.z Camera.pitch Camera.yaw].
    f_equal; ring.
Qed.

(** X14. Where the [mousemove] listener is registered, dragging with the
    primary button turns the camera and nothing else: [n] moves by
    [(dx, dy)] add [n dx 0.002] to the yaw and take [n dy 0.002] off the
    pitch, without any clamp, and leave the position alone; a move with
    any other button state leaves the camera as it is. *)
Theorem mouse_drag_turns_camera (host : Host) (w : World) (n : nat)
    (buttons : Z) (dx dy : R) :
  listeners w = registered -> buttons <> 1%Z ->
  let c := camera w in
  let c' := camera (deliver host (replicate n (MouseMove 1 dx dy)) w) in
  Camera.yaw c' = Camera.yaw c + INR n * (dx * 0.002) /\
  Camera.pitch c' = Camera.pitch c - INR n * (dy * 0.002) /\
  position c' = position c /\
  camera (deliver host [MouseMove buttons dx dy] w) = c.
Proof.
  intros Hl Hb c c'. subst c c'.
  rewrite drag_steps by assumption.
  repeat split.
  rewrite deliver_input_cons by (discriminate || assumption).
  cbn [deliver fold_left step]. now destruct (decide (buttons = 1%Z)).
Qed.

Lemma mouse_drag_turns_camera_witness :
  listeners idling = registered /\ 3%Z <> 1%Z /\
  Camera.pitch (camera (deliver with_webgl (replicate 2000 (MouseMove 1 0 1)) idling))
  = Camera.pitch (camera idling) - INR 2000 * (1 * 0.002) /\
  camera (deliver with_webgl [MouseMove 3 7 7] idling) = camera idling.
Proof.
  assert (Hl : listeners idling = registered) by reflexivity.
  assert (Hb : 3%Z <> 1%Z) by lia.
  split; [exact Hl|]. split; [exact Hb|]. split.
  - exact (proj1 (proj2 (mouse_drag_turns_camera with_webgl idling 2000 3 0 1 Hl Hb))).
  - exact (proj2 (proj2 (proj2 (mouse_drag_turns_camera with_webgl idling 0 3 7 7 Hl Hb)))).
Defined.

End Input.

(** ** Movement *)

Section Movement.

Import Geometry.

Lemma camera_eq (x y z p yw x' y' z' p' yw' : R) :
  x = x' -> y = y' -> z = z' -> p = p' -> yw = yw' ->
  Camera.mk x y z p yw = Camera.mk x' y' z' p' yw'.
Proof. now intros -> -> -> -> ->. Qed.

(** X15. Opposite keys cancel: in a frame where [w] and [s] are both held or
    both free, and likewise [a] and [d], and [q] and [e], and [r] is not
    held, the camera stays where it is, whatever its yaw. *)
Theorem opposite_keys_cancel (w : World) :
  held (keys w) "w" = held (keys w) "s" ->
  held (keys w) "a" = held (keys w) "d" ->
  held (keys w) "q" = held (keys w) "e" ->
  held (keys w) "r" = false ->
  exists w', render (Some gl.webgl) w = Returned tt w' /\ camera w' = camera w.
Proof.
  intros Hws Had Hqe Hr. exists (after_frame w). split; [apply render_closed|].
  cbn [after_frame camera]. unfold camera_after. rewrite Hws, Had, Hqe, Hr.
  destruct (camera w) as [x y z p yw].
  destruct (held (keys w) "s"), (held (keys w) "d"), (held (keys w) "e");
    unfold move; cbn [Camera.x Camera.y Camera.z Camera.pitch Camera.yaw];
    apply camera_eq; ring.
Qed.

Lemma opposite_keys_cancel_witness :
  held (keys wandering) "w" = held (keys wandering) "s" /\
  held (keys wandering) "a" = held (keys wandering) "d" /\
  held (keys wandering) "q" = held (keys wandering) "e" /\
  held (keys wandering) "r" = false /\
  exists w', render (Some gl.webgl) wandering = Returned tt w' /\
             camera w' = Camera.mk 3 (-4) 5 0.5 1.
Proof.
  assert (H1 : held (keys wandering) "w" = held (keys wandering) "s") by (vm_compute; reflexivity).
  assert (H2 : held (keys wandering) "a" = held (keys wandering) "d") by (vm_compute; reflexivity).
  assert (H3 : held (keys wandering) "q" = held (keys wandering) "e") by (vm_compute; reflexivity).
  assert (H4 : held (keys wandering) "r" = false) by (vm_compute; reflexivity).
  repeat (split; [assumption|]).
  exact (opposite_keys_cancel wandering H1 H2 H3 H4).
Defined.

Lemma speed_magnitude (s c : R) (a b : R) :
  s * s + c * c = 1 -> a * a + b * b = 1 ->
  sqrt ((a * s * 0.2 + b * c * 0.2) * (a * s * 0.2 + b * c * 0.2) + 0 * 0
        + (b * s * 0.2 - a * c * 0.2) * (b * s * 0.2 - a * c * 0.2)) = 0.2.
Proof.
  intros Hsc Hab.
  replace ((a * s * 0.2 + b * c * 0.2) * (a * s * 0.2 + b * c * 0.2) + 0 * 0
           + (b * s * 0.2 - a * c * 0.2) * (b * s * 0.2 - a * c * 0.2))
    with (0.2 * 0.2 * ((a * a + b * b) * (s * s + c * c))) by ring.
  rewrite Hsc, Hab, !Rmult_1_r. apply sqrt_square. lra.
Qed.

(** X16. A single movement key moves the camera by exactly the step [0.2],
    horizontally, at any yaw, and does not turn it: the camera after the
    frame is at distance [0.2] from the camera before it, at the same
    height, and yaw and pitch are unchanged. *)
Theorem single_key_step_is_speed (w : World) (k : string) :
  k ∈ ["w"; "s"; "a"; "d"] ->
  held_keys (keys w) = [k] ->
  exists w', render (Some gl.webgl) w = Returned tt w' /\
    magnitude (GLSL.vec3_sub (position (camera w')) (position (camera w))) = 0.2 /\
    Camera.y (camera w') = Camera.y (camera w) /\
    Camera.yaw (camera w') = Camera.yaw (camera w) /\
    Camera.pitch (camera w') = Camera.pitch (camera w).
Proof.
  intros Hk Hheld. exists (after_frame w). split; [apply render_closed|].
  cbn [after_frame camera].
  pose proof (sin2_cos2 (Camera.yaw (camera w))) as Hsc. unfold Rsqr in Hsc.
  apply held_keys_inv in Hheld as (Hw & Hs & Ha & Hd & Hq & He & Hr).
  assert (Hmove : exists a b : R,
             a * a + b * b = 1 /\
             camera_after (keys w) (camera w)
             = move (a * sin (Camera.yaw (camera w)) * 0.2
                     + b * cos (Camera.yaw (camera w)) * 0.2) 0
                    (b * sin (Camera.yaw (camera w)) * 0.2
                     - a * cos (Camera.yaw (camera w)) * 0.2) (camera w)).
  { unfold camera_after. rewrite Hw, Hs, Ha, Hd, Hq, He, Hr.
    destruct (camera w) as [x y z p yw]. cbn [Camera.yaw].
    repeat (apply elem_of_cons in Hk as [->|Hk]); [| | | |now apply elem_of_nil in Hk];
      repeat match goal with
             | |- context [bool_decide ?P] =>
                 let b := eval vm_compute in (bool_decide P) in
                 change (bool_decide P) with b
             end; cbv iota zeta.
    - exists 1, 0. split; [ring|]. unfold move.
      cbn [Camera.x Camera.y Camera.z Camera.pitch Camera.yaw]. apply camera_eq; ring.
    - exists (-1), 0. split; [ring|]. unfold move.
      cbn [Camera.x Camera.y Camera.z Camera.pitch Camera.yaw]. apply camera_eq; ring.
    - exists 0, (-1). split; [ring|]. unfold move.
      cbn [Camera.x Camera.y Camera.z Camera.pitch Camera.yaw]. apply camera_eq; ring.
    - exists 0, 1. split; [ring|]. unfold move.
      cbn [Camera.x Camera.y Camera.z Camera.pitch Camera.yaw]. apply camera_eq; ring. }
  destruct Hmove as (a & b & Hab & Hmove).
  rewrite Hmove.
  destruct (camera w) as [x y z p yw]. cbn [Camera.yaw] in Hsc |- *.
  unfold position, move, GLSL.vec3_sub, magnitude.
  cbn [Camera.x Camera.y Camera.z Camera.pitch Camera.yaw].
  split; [|split; [ring|split; reflexivity]].
  etransitivity; [|apply (speed_magnitude (sin yw) (cos yw) a b); assumption].
  f_equal. ring.
Qed.

Lemma single_key_step_is_speed_witness :
  "a" ∈ ["w"; "s"; "a"; "d"] /\
  held_keys (keys strafing) = ["a"] /\
  exists w', render (Some gl.webgl) strafing = Returned tt w' /\
    magnitude (GLSL.vec3_sub (position (camera w')) (position (camera strafing))) = 0.2.
Proof.
  assert (Hk : "a" ∈ ["w"; "s"; "a"; "d"]) by set_solver.
  assert (Hheld : held_keys (keys strafing) = ["a"]) by (vm_compute; reflexivity).
  split; [exact Hk|]. split; [exact Hheld|].
  destruct (single_key_step_is_speed strafing "a" Hk Hheld) as (w' & Hr & Hm & _).
  exists w'. split; [exact Hr|exact Hm].
Defined.

(** X17. Diagonal movement is not normalised: with [w] and [d] held the frame's
    step has length [0.2 sqrt 2] at any yaw. *)
Theorem diagonal_step_is_longer (w : World) :
  held_keys (keys w) = ["w"; "d"] ->
  exists w', render (Some gl.webgl) w = Returned tt w' /\
    magnitude (displacement (keys w) (camera w)) = 0.2 * sqrt 2 /\
    magnitude (GLSL.vec3_sub (position (camera w')) (position (camera w))) = 0.2 * sqrt 2.
Proof.
  intros Hheld. exists (after_frame w). split; [apply render_closed|].
  cbn [after_frame camera].
  assert (Hd : magnitude (displacement (keys w) (camera w)) = 0.2 * sqrt 2).
  { unfold displacement. rewrite (camera_after_w_and_d _ _ Hheld).
    pose proof (sin2_cos2 (Camera.yaw (camera w))) as Hsc. unfold Rsqr in Hsc.
    destruct (camera w) as [x y z p yw]. cbn [Camera.yaw] in Hsc |- *.
    unfold position, move, GLSL.vec3_sub, magnitude.
    cbn [Camera.x Camera.y Camera.z Camera.pitch Camera.yaw].
    set (s := sin yw) in *. set (c := cos yw) in *.
    replace ((x + s * 0.2 + c * 0.2 - x) * (x + s * 0.2 + c * 0.2 - x)
             + (y + 0 + 0 - y) * (y + 0 + 0 - y)
             + (z + - (c * 0.2) + s * 0.2 - z) * (z + - (c * 0.2) + s * 0.2 - z))
      with (0.2 * 0.2 * (2 * (s * s + c * c))) by ring.
    rewrite Hsc, Rmult_1_r, sqrt_mult_alt by lra.
    now rewrite sqrt_square by lra. }
  split; exact Hd.
Qed.

Lemma diagonal_step_is_longer_witness :
  held_keys (keys diagonal) = ["w"; "d"] /\
  magnitude (displacement (keys diagonal) (camera diagonal)) = 0.2 * sqrt 2.
Proof.
  assert (Hheld : held_keys (keys diagonal) = ["w"; "d"]) by (vm_compute; reflexivity).
  split; [exact Hheld|].
  destruct (diagonal_step_is_longer diagonal Hheld) as (w' & _ & Hm & _). exact Hm.
Defined.

End Movement.

Section Travel.

Lemma frame_steps (host : Host) (n : nat) (w : World) :
  getContext host = Some gl.webgl -> running w -> held_keys (keys w) = ["w"] ->
  camera (deliver host (replicate n AnimationFrame) w)
  = move (INR n * (sin (Camera.yaw (camera w)) * 0.2)) 0
         (- (INR n * (cos (Camera.yaw (camera w)) * 0.2))) (camera w).
Proof.
  intros Hctx. revert w. induction n as [|n IH]; intros w Hrun Hheld.
  - simpl. destruct (camera w). unfold move. simpl. apply camera_eq; ring.
  - cbn [replicate]. rewrite deliver_cons by assumption.
    rewrite IH; [|apply dispatch_step; assumption|exact Hheld].
    rewrite S_INR. cbn [step after_frame set_frame_requested camera keys].
    rewrite (camera_after_only_w _ _ Hheld).
    destruct (camera w) as [x y z p yw]. unfold move.
    cbn [Camera.x Camera.y Camera.z Camera.pitch Camera.yaw].
    apply camera_eq; ring.
Qed.

(** X18. A held key moves the camera every frame: on a running event
    loop with only [w] held, [n] frames carry the camera [n] steps of
    [0.2] along its forward direction [(sin yaw, 0, -cos yaw)], without
    turning it. *)
Theorem held_key_moves_every_frame (host : Host) (w : World) (n : nat) :
  getContext host = Some gl.webgl -> running w ->
  held_keys (keys w) = ["w"] ->
  let c := camera w in
  camera (deliver host (replicate n AnimationFrame) w)
  = move (INR n * (sin (Camera.yaw c) * 0.2)) 0 (- (INR n * (cos (Camera.yaw c) * 0.2))) c.
Proof.
  intros Hctx Hrun Hheld c. subst c. now apply frame_steps.
Qed.

Lemma held_key_moves_every_frame_witness :
  getContext with_webgl = Some gl.webgl /\ running striding /\
  held_keys (keys striding) = ["w"] /\
  camera (deliver with_webgl (replicate 10 AnimationFrame) striding)
  = move (INR 10 * (sin (Camera.yaw (camera striding)) * 0.2)) 0
         (- (INR 10 * (cos (Camera.yaw (camera striding)) * 0.2))) (camera striding).
Proof.
  assert (Hctx : getContext with_webgl = Some gl.webgl) by reflexivity.
  assert (Hrun : running striding) by (split; reflexivity).
  assert (Hheld : held_keys (keys striding) = ["w"]) by (vm_compute; reflexivity).
  split; [exact Hctx|]. split; [exact Hrun|]. split; [exact Hheld|].
  exact (held_key_moves_every_frame with_webgl striding 10 Hctx Hrun Hheld).
Defined.

(** X19. The keys translate and never turn, and the pitch never steers: in a
    frame without reset, yaw and pitch come out as they went in, and the
    position the frame leads to is the same whatever the pitch. *)
Theorem keys_translate_only (w : World) (pitch' : R) :
  held (keys w) "r" = false ->
  let c := camera w in
  let tilted := Camera.mk (Camera.x c) (Camera.y c) (Camera.z c) pitch' (Camera.yaw c) in
  exists w1 w2,
    render (Some gl.webgl) w = Returned tt w1 /\
    render (Some gl.webgl) (set_camera tilted w) = Returned tt w2 /\
    Camera.yaw (camera w1) = Camera.yaw c /\
    Camera.pitch (camera w1) = Camera.pitch c /\
    position (camera w2) = position (camera w1).
Proof.
  intros Hr c tilted. subst c tilted.
  eexists _, _.
  split; [apply render_closed|]. split; [apply render_closed|].
  cbn [after_frame camera keys set_camera]. unfold camera_after. rewrite Hr.
  destruct (camera w) as [x y z p yw].
  destruct (held (keys w) "w"), (held (keys w) "s"), (held (keys w) "a"),
    (held (keys w) "d"), (held (keys w) "q"), (held (keys w) "e");
    repeat split.
Qed.

Lemma keys_translate_only_witness :
  held (keys wandering) "r" = false /\
  exists w1, render (Some gl.webgl) wandering = Returned tt w1 /\
             Camera.yaw (camera w1) = 1 /\ Camera.pitch (camera w1) = 0.5.
Proof.
  assert (Hr : held (keys wandering) "r" = false) by (vm_compute; reflexivity).
  split; [exact Hr|].
  destruct (keys_translate_only wandering 0 Hr) as (w1 & _ & H1 & _ & Hy & Hp & _).
  exists w1. split; [exact H1|]. split; [exact Hy|exact Hp].
Defined.

End Travel.
